(** * go-dep-updater: a model of [main.go] and the properties of its
    version inspector, upgrade decision and per-project pipeline.

    The program is a sequence of calls to external tools.  Every call that
    leaves the process (reading a file, [os.Stat], running a command,
    reading standard input, printing, logging) is an [Event]; a Go function
    is a computation that reads the events so far, asks the environment for
    the answer of each call, and emits the events it performs, in order. *)

From Stdlib Require Import String Ascii List Bool Arith PeanoNat Lia.
Import ListNotations.
Open Scope string_scope.
Open Scope list_scope.

(** ** The parts of Go's [strings] package that [main.go] calls.

    Go strings are byte strings; so are Rocq's.  White space is the table
    [asciiSpace] that [strings.Fields] and [strings.TrimSpace] use on ASCII
    input. *)

Module strings.

Definition nl : string := String "010"%char "".

Definition isSpace (c : ascii) : bool :=
  match nat_of_ascii c with
  | 9 | 10 | 11 | 12 | 13 | 32 => true
  | _ => false
  end.

Definition snoc (s : string) (c : ascii) : string := (s ++ String c "")%string.

(** [strings.Contains(s, substr)]: [substr] occurs in [s]. *)
Fixpoint Contains (s substr : string) : bool :=
  if prefix substr s then true
  else match s with
       | "" => false
       | String _ s' => Contains s' substr
       end.

(** [strings.Split(s, sep)] for a one-byte separator, as at its call site
    ([sep] is the line feed): the pieces between the separators, one more
    than there are separators. *)
Fixpoint Split_from (cur : string) (s : string) (sep : ascii) : list string :=
  match s with
  | "" => [cur]
  | String c s' =>
      if Ascii.eqb c sep then cur :: Split_from "" s' sep
      else Split_from (snoc cur c) s' sep
  end.

Definition Split (s : string) (sep : ascii) : list string := Split_from "" s sep.

(** [strings.Fields(s)]: the maximal runs of bytes that are not white space. *)
Fixpoint Fields_from (cur : string) (s : string) : list string :=
  match s with
  | "" => match cur with "" => [] | _ => [cur] end
  | String c s' =>
      if isSpace c
      then match cur with
           | "" => Fields_from "" s'
           | _ => cur :: Fields_from "" s'
           end
      else Fields_from (snoc cur c) s'
  end.

Definition Fields (s : string) : list string := Fields_from "" s.

Fixpoint TrimLeftSpace (s : string) : string :=
  match s with
  | String c s' => if isSpace c then TrimLeftSpace s' else s
  | "" => ""
  end.

Fixpoint rev (s : string) : string :=
  match s with
  | "" => ""
  | String c s' => snoc (rev s') c
  end.

(** [strings.TrimSpace(s)]: leading and trailing white space removed. *)
Definition TrimSpace (s : string) : string :=
  rev (TrimLeftSpace (rev (TrimLeftSpace s))).

(** [strings.TrimSuffix(s, suffix)]: [s] without the trailing [suffix], or
    [s] itself when it does not end with it. *)
Definition TrimSuffix (s suffix : string) : string :=
  let n := String.length s in
  let k := String.length suffix in
  if Nat.leb k n && String.eqb (substring (n - k) k s) suffix
  then substring 0 (n - k) s
  else s.

End strings.

(** ** Events, the environment and the monad of Go function bodies *)

(** A Go [error] is modelled by its message; [nil] is [None]. *)
Definition error := string.

(** [fmt.Errorf("%v: %s", err, out)], the only shape of wrapped error in
    the program: both verbs print their operand as it is. *)
Definition Errorf_v_s (err : error) (out : string) : error :=
  (err ++ ": " ++ out)%string.

(** An [*exec.Cmd] as the program builds it: [exec.Command(name, arg...)]
    followed by the assignment of [cmd.Dir]. *)
Record Cmd := Command {
  Name : string;
  Args : list string;
  Dir : string
}.

(** What [os.Stat] answers, as far as [os.IsNotExist] can tell apart. *)
Inductive StatResult :=
| StatOk              (* err == nil: the file exists *)
| StatErrNotExist     (* os.IsNotExist(err) *)
| StatErrOther.       (* any other error *)

(** Text handed to the logger or to [fmt.Println].  Formatting is kept
    symbolic: [Sprintf format args] stands for [fmt.Sprintf(format, args...)]. *)
#[warnings="-register-all"]
Inductive Msg :=
| Str (s : string)
| Sprintf (format : string) (args : list Msg)
| Cat (a b : Msg)
| Yellow (m : Msg).

Inductive Level := Debug | Info | Warn | Error.

Inductive Event :=
| EvReadFile (path : string) (res : option string)
| EvStat (path : string) (res : StatResult)
| EvExec (cmd : Cmd) (out : string) (err : option error)
| EvPrintln (operands : list Msg)
| EvReadString (text : string) (err : option error)
| EvLog (lvl : Level) (msg : Msg).

(** One call of the walk function by [filepath.Walk]: the path, what
    [info.IsDir()] and [info.Name()] answer, and the error handed over. *)
Record Visit := mkVisit {
  v_path : string;
  v_IsDir : bool;
  v_Name : string;
  v_err : option error
}.

(** The world outside the process.  Every answer may depend on all that
    happened before (the list of events so far).  The path functions of the
    standard library are pure.  [Walk_visits] is the sequence of calls that
    [filepath.Walk] makes of a walk function that keeps answering [nil]. *)
Record Env := {
  ReadFile : list Event -> string -> option string;
  Stat : list Event -> string -> StatResult;
  CombinedOutput : list Event -> Cmd -> string * option error;
  ReadString : list Event -> string * option error;
  Walk_visits : list Event -> string -> list Visit;
  filepath_Dir : string -> string;
  filepath_Base : string -> string;
  path_Join : string -> string -> string
}.

(** A statement of a Go function either goes on to the next statement with
    a value or leaves the function by [return]. *)
Inductive Flow (R A : Type) :=
| Next (a : A)
| Return (r : R).
Arguments Next {R A} a.
Arguments Return {R A} r.

(** A computation takes the events so far and yields its flow together with
    the events it emitted. *)
Definition M (R A : Type) : Type := list Event -> Flow R A * list Event.

Definition ret {R A} (a : A) : M R A := fun _ => (Next a, []).

Definition return_ {R A} (r : R) : M R A := fun _ => (Return r, []).

Definition bind {R A B} (m : M R A) (f : A -> M R B) : M R B :=
  fun h =>
    match m h with
    | (Next a, t1) =>
        match f a (h ++ t1) with
        | (x, t2) => (x, t1 ++ t2)
        end
    | (Return r, t1) => (Return r, t1)
    end.

Notation "x <- m ;; k" := (bind m (fun x => k))
  (at level 61, m at next level, right associativity).
Notation "' pat <- m ;; k" := (bind m (fun x => match x with pat => k end))
  (at level 61, pat pattern, m at next level, right associativity).
Notation "m ;; k" := (bind m (fun _ => k))
  (at level 61, right associativity).

(** [if c { body }] *)
Definition when {R} (c : bool) (body : M R unit) : M R unit :=
  if c then body else ret tt.

(** A call of a function whose body is [body]: a [return] inside ends the
    body and gives the value of the call. *)
Definition func {R A} (body : M A A) : M R A :=
  fun h =>
    match body h with
    | (Next a, t) => (Next a, t)
    | (Return a, t) => (Next a, t)
    end.

(** The value and the events of a call made when [h] had happened. *)
Definition run {A} (m : M A A) (h : list Event) : A * list Event :=
  match m h with
  | (Next a, t) => (a, t)
  | (Return a, t) => (a, t)
  end.

Definition emit {R} (e : Event) : M R unit := fun _ => (Next tt, [e]).

Section Program.

Variable env : Env.

(** *** Calls that leave the process *)

Definition os_ReadFile {R} (path : string) : M R (option string) :=
  fun h =>
    match ReadFile env h path with
    | Some data => (Next (Some data), [EvReadFile path (Some data)])
    | None => (Next None, [EvReadFile path None])
    end.

Definition os_Stat {R} (path : string) : M R StatResult :=
  fun h =>
    match Stat env h path with
    | StatOk => (Next StatOk, [EvStat path StatOk])
    | StatErrNotExist => (Next StatErrNotExist, [EvStat path StatErrNotExist])
    | StatErrOther => (Next StatErrOther, [EvStat path StatErrOther])
    end.

(** [executeCommand]: the combined output of the command and its error. *)
Definition executeCommand {R} (cmd : Cmd) : M R (string * option error) :=
  fun h =>
    match CombinedOutput env h cmd with
    | (output, err) => (Next (output, err), [EvExec cmd output err])
    end.

Definition reader_ReadString {R} : M R (string * option error) :=
  fun h =>
    match ReadString env h with
    | (text, err) => (Next (text, err), [EvReadString text err])
    end.

Definition fmt_Println {R} (operands : list Msg) : M R unit :=
  emit (EvPrintln operands).

Definition log_Debugf {R} (format : string) (args : list Msg) : M R unit :=
  emit (EvLog Debug (Sprintf format args)).

Definition log_Infof {R} (format : string) (args : list Msg) : M R unit :=
  emit (EvLog Info (Sprintf format args)).

Definition log_Errorf {R} (format : string) (args : list Msg) : M R unit :=
  emit (EvLog Error (Sprintf format args)).

Definition printIndentedInfo {R} (app format : string) (args : list Msg) : M R unit :=
  emit (EvLog Info (Sprintf "%s: %s" [Str app; Sprintf format args])).

Definition printIndentedError {R} (app format : string) (args : list Msg) : M R unit :=
  emit (EvLog Error (Sprintf "%s: %s" [Str app; Sprintf format args])).

Definition printIndentedWarning {R} (app format : string) (args : list Msg) : M R unit :=
  emit (EvLog Warn (Sprintf "%s: %s" [Str app; Sprintf format args])).

(** *** The version inspector and the upgrade decision *)

Definition VersionUnknown : string := "Unknown".
Definition VersionNotFound : string := "NotFound".

(** The loop of [getDependencyVersion] over the lines of the manifest. *)
Fixpoint scanLines (lines : list string) (dependency : string) : string :=
  match lines with
  | [] => VersionUnknown
  | line :: rest =>
      if strings.Contains line dependency then
        let parts := strings.Fields line in
        if (1 <? List.length parts)%nat then nth 1 parts "" else VersionNotFound
      else scanLines rest dependency
  end.

Definition getDependencyVersion {R} (filePath dependency : string) : M R string :=
  data <- os_ReadFile filePath ;;
  match data with
  | None => ret VersionUnknown
  | Some data => ret (scanLines (strings.Split data "010"%char) dependency)
  end.

Definition shouldUpgrade {R} (path dependency targetVersion : string)
  : M R (string * bool) :=
  currentVersion <- getDependencyVersion path dependency ;;
  let isKnownVersion :=
    negb (String.eqb currentVersion VersionUnknown)
    && negb (String.eqb currentVersion VersionNotFound) in
  ret (currentVersion,
       isKnownVersion && negb (String.eqb currentVersion targetVersion)).

(** *** The steps of the pipeline *)

Definition hasUncommittedChanges {R} (projectDir : string) : M R bool :=
  '(out, _) <- executeCommand (Command "git" ["status"; "--porcelain"] projectDir) ;;
  ret (0 <? String.length out)%nat.

(** The shape shared by the steps that run one command and wrap its error. *)
Definition wrapped (out : string) (err : option error) : option error :=
  match err with
  | Some e => Some (Errorf_v_s e out)
  | None => None
  end.

Definition gitPull {R} (projectDir : string) : M R (option error) :=
  '(out, err) <- executeCommand (Command "git" ["pull"] projectDir) ;;
  ret (wrapped out err).

Definition goGetUpdate {R} (projectDir dependency targetVersion : string)
  : M R (option error) :=
  '(out, err) <- executeCommand
      (Command "go" ["get"; (dependency ++ "@" ++ targetVersion)%string] projectDir) ;;
  match err with
  | Some e => ret (Some (Errorf_v_s e out))
  | None =>
      '(out, err) <- executeCommand (Command "go" ["mod"; "tidy"] projectDir) ;;
      ret (wrapped out err)
  end.

Definition goVet {R} (projectDir : string) : M R (option error) :=
  '(out, err) <- executeCommand (Command "go" ["vet"; "./..."] projectDir) ;;
  ret (wrapped out err).

Definition goTest {R} (projectDir : string) : M R (option error) :=
  '(out, err) <- executeCommand (Command "go" ["test"; "./..."] projectDir) ;;
  ret (wrapped out err).

Definition goBuild {R} (projectDir : string) : M R (option error) :=
  '(out, err) <- executeCommand
      (Command "go" ["build"; "-o"; "tmp-app"; "main.go"] projectDir) ;;
  match err with
  | Some e => ret (Some (Errorf_v_s e out))
  | None =>
      '(out, err) <- executeCommand (Command "rm" ["./tmp-app"] projectDir) ;;
      ret (wrapped out err)
  end.

(** [fmt.Sprintf("Updated %s to version %s", dependency, targetVersion)] *)
Definition commitMessage (dependency targetVersion : string) : string :=
  ("Updated " ++ dependency ++ " to version " ++ targetVersion)%string.

Definition gitCommit {R} (projectDir dependency targetVersion : string)
  : M R (option error) :=
  '(out, err) <- executeCommand
      (Command "git" ["add"; "go.mod"; "go.sum"] projectDir) ;;
  match err with
  | Some e => ret (Some (Errorf_v_s e out))
  | None =>
      '(out, err) <- executeCommand
          (Command "git" ["commit"; "-m"; commitMessage dependency targetVersion]
                   projectDir) ;;
      ret (wrapped out err)
  end.

Definition gitPush {R} (projectDir : string) : M R (option error) :=
  '(out, err) <- executeCommand (Command "git" ["push"] projectDir) ;;
  ret (wrapped out err).

Definition currentGitBranch {R} (projectDir : string) : M R (string * option error) :=
  '(out, err) <- executeCommand
      (Command "git" ["rev-parse"; "--abbrev-ref"; "HEAD"] projectDir) ;;
  match err with
  | Some e => ret ("", Some (Errorf_v_s e out))
  | None => ret (strings.TrimSpace out, err)
  end.

Definition gitCheckoutMaster {R} (projectDir : string) : M R (option error) :=
  '(out, err) <- executeCommand (Command "git" ["checkout"; "master"] projectDir) ;;
  ret (wrapped out err).

Definition readInput {R} (prompt : string) (args : list Msg) : M R string :=
  fmt_Println [Yellow (Cat (Str ">>> ") (Sprintf prompt args))] ;;
  '(text, err) <- reader_ReadString ;;
  match err with
  | Some e => fmt_Println [Str "An error occurred:"; Str e] ;; ret ""
  | None => ret (strings.TrimSuffix text strings.nl)
  end.

Definition directoryHasFile {R} (directoryPath fileName : string) : M R bool :=
  let filePath := path_Join env directoryPath fileName in
  r <- os_Stat filePath ;;
  match r with
  | StatErrNotExist => ret false
  | _ => ret true
  end.

Definition isSome {A} (o : option A) : bool :=
  match o with Some _ => true | None => false end.

Definition errMsg (o : option error) : Msg :=
  match o with Some e => Str e | None => Str "<nil>" end.

Definition aborted_see_above : error :=
  "aborted due to unwanted project state after update. See above error(s)".
Definition aborted_plain : error :=
  "aborted due to unwanted project state after update".

(** *** The walk function: the closure that [main] hands to [filepath.Walk] *)

Definition walkFn {R} (dependency targetVersion : string) (confirmBeforeEach : bool)
  (path : string) (info_IsDir : bool) (info_Name : string) (err : option error)
  : M R (option error) :=
  func (
    when (isSome err) (return_ err) ;;
    when (negb info_IsDir && String.eqb info_Name "go.mod") (
      let projectDir := filepath_Dir env path in
      let projectName := filepath_Base env projectDir in
      '(currentVersion, upgrade) <- shouldUpgrade path dependency targetVersion ;;
      when (negb upgrade) (
        log_Debugf ("Upgrade not needed for %s" ++ strings.nl)%string [Str projectDir] ;;
        return_ None) ;;
      when confirmBeforeEach (
        answer <- readInput "Continue with %s?" [Str projectDir] ;;
        when (negb (String.eqb answer "y") && negb (String.eqb answer "yes")) (
          log_Debugf ("Skipping %s" ++ strings.nl)%string [Str projectDir] ;;
          return_ None)) ;;
      log_Infof "Updating Project: %s from version %s to %s"
        [Str projectName; Str currentVersion; Str targetVersion] ;;
      printIndentedInfo projectName "Checking for uncommitted changes..." [] ;;
      dirty <- hasUncommittedChanges projectDir ;;
      when dirty (
        printIndentedWarning projectName
          "Warning: Project %s has uncommitted changes. Skipping update."
          [Str projectName] ;;
        return_ None) ;;
      printIndentedInfo projectName "Checking that current git branch is master..." [] ;;
      '(currentBranch, err) <- currentGitBranch projectDir ;;
      when (isSome err) (
        printIndentedError projectName
          "Error determining current branch for project %s: %v"
          [Str projectName; errMsg err] ;;
        return_ None) ;;
      when (negb (String.eqb currentBranch "master")) (
        printIndentedInfo projectName
          "Project is not on 'master' branch. Switching..." [] ;;
        err <- gitCheckoutMaster projectDir ;;
        when (isSome err) (
          printIndentedError projectName
            "Error switching to 'master' branch for project %s: %v"
            [Str projectName; errMsg err] ;;
          return_ None)) ;;
      printIndentedInfo projectName "Pulling latest from origin..." [] ;;
      err <- gitPull projectDir ;;
      when (isSome err) (
        printIndentedError projectName "Error pulling changes for project %s: %v"
          [Str projectName; errMsg err] ;;
        return_ None) ;;
      printIndentedInfo projectName "Running go get..." [] ;;
      err <- goGetUpdate projectDir dependency targetVersion ;;
      when (isSome err) (
        printIndentedError projectName "Error updating dependency for project %s: %v"
          [Str projectName; errMsg err] ;;
        return_ None) ;;
      printIndentedInfo projectName "Successfully updated dependency %s to %s for %s"
        [Str dependency; Str targetVersion; Str projectName] ;;
      printIndentedInfo projectName "Running go vet..." [] ;;
      err <- goVet projectDir ;;
      when (isSome err) (
        printIndentedError projectName "Error running go vet for project %s: %v"
          [Str projectName; errMsg err] ;;
        return_ (Some aborted_see_above)) ;;
      printIndentedInfo projectName "Running go test..." [] ;;
      err <- goTest projectDir ;;
      when (isSome err) (
        printIndentedError projectName "Error running go test for project %s: %v"
          [Str projectName; errMsg err] ;;
        return_ (Some aborted_see_above)) ;;
      hasMain <- directoryHasFile projectDir "main.go" ;;
      when hasMain (
        printIndentedInfo projectName "Running go build..." [] ;;
        err <- goBuild projectDir ;;
        when (isSome err) (
          printIndentedError projectName "Error running go build for project %s: %v"
            [Str projectName; errMsg err] ;;
          return_ (Some aborted_plain))) ;;
      printIndentedInfo projectName "Committing changes to git..." [] ;;
      err <- gitCommit projectDir dependency targetVersion ;;
      when (isSome err) (
        printIndentedError projectName "Error committing changes for project %s: %v"
          [Str projectName; errMsg err] ;;
        return_ None) ;;
      printIndentedInfo projectName "Pushing to git origin..." [] ;;
      err <- gitPush projectDir ;;
      when (isSome err) (
        printIndentedError projectName "Error pushing changes for project %s: %v"
          [Str projectName; errMsg err] ;;
        return_ None) ;;
      printIndentedInfo "Done updating %s" projectName []) ;;
    return_ None).

(** *** [filepath.Walk] and [main] *)

(** [filepath.Walk] calls the walk function visit after visit and stops at
    the first error it answers (the walk function of this program never
    answers [SkipDir] or [SkipAll]). *)
Fixpoint walk {R} (fn : Visit -> M R (option error)) (visits : list Visit)
  : M R (option error) :=
  match visits with
  | [] => ret None
  | v :: rest =>
      err <- fn v ;;
      match err with
      | Some e => ret (Some e)
      | None => walk fn rest
      end
  end.

Definition filepath_Walk {R} (root : string) (fn : Visit -> M R (option error))
  : M R (option error) :=
  fun h => walk fn (Walk_visits env h root) h.

(** [confirmBeforeEach] as [main] computes it from [os.Args]. *)
Definition confirmBeforeEach_of (Args : list string) : bool :=
  if (5 <=? List.length Args)%nat
  then String.eqb (nth 4 Args "") "confirm-each"
  else false.

Definition usage : string :=
  "Usage: go-dep-updater <root_directory_path> <dependency> <target-version>".

(** The walk function applied to one visit of [filepath.Walk]. *)
Definition walkFunc {R} (dependency targetVersion : string) (confirmBeforeEach : bool)
  (v : Visit) : M R (option error) :=
  walkFn dependency targetVersion confirmBeforeEach
         (v_path v) (v_IsDir v) (v_Name v) (v_err v).

Definition main (Args : list string) : M unit unit :=
  when (List.length Args <? 4)%nat (
    log_Errorf usage [] ;;
    return_ tt) ;;
  let rootDir := nth 1 Args "" in
  let dependency := nth 2 Args "" in
  let targetVersion := nth 3 Args "" in
  let confirmBeforeEach := confirmBeforeEach_of Args in
  err <- filepath_Walk rootDir (walkFunc dependency targetVersion confirmBeforeEach) ;;
  when (isSome err) (
    log_Errorf ("Error walking the path: %v" ++ strings.nl)%string [errMsg err] ;;
    return_ tt) ;;
  ret tt.

End Program.

(** ** The pipeline as a state machine

    The vocabulary in which the properties of the pipeline are stated: the
    steps, which step an event belongs to, and which events end the work on
    a project. *)

Inductive Step :=
| Decide | Confirm | CleanTree | EnsureMain | Pull | DepUpdate
| StaticCheck | Test | Build | Commit | Push.


(** The commands of the pipeline. *)
Inductive CmdKind :=
| GitStatus | GitRevParse | GitCheckout | GitPull | GoGet | GoModTidy
| GoVet | GoTest | GoBuild | RmTmpApp | GitAdd | GitCommit | GitPush.

Definition all_kinds : list CmdKind :=
  [GitStatus; GitRevParse; GitCheckout; GitPull; GoGet; GoModTidy;
   GoVet; GoTest; GoBuild; RmTmpApp; GitAdd; GitCommit; GitPush].


(** The command line of each, as the functions of the program build it. *)
Definition pipeline_cmd (projectDir dependency targetVersion : string) (k : CmdKind) : Cmd :=
  match k with
  | GitStatus => Command "git" ["status"; "--porcelain"] projectDir
  | GitRevParse => Command "git" ["rev-parse"; "--abbrev-ref"; "HEAD"] projectDir
  | GitCheckout => Command "git" ["checkout"; "master"] projectDir
  | GitPull => Command "git" ["pull"] projectDir
  | GoGet => Command "go" ["get"; (dependency ++ "@" ++ targetVersion)%string] projectDir
  | GoModTidy => Command "go" ["mod"; "tidy"] projectDir
  | GoVet => Command "go" ["vet"; "./..."] projectDir
  | GoTest => Command "go" ["test"; "./..."] projectDir
  | GoBuild => Command "go" ["build"; "-o"; "tmp-app"; "main.go"] projectDir
  | RmTmpApp => Command "rm" ["./tmp-app"] projectDir
  | GitAdd => Command "git" ["add"; "go.mod"; "go.sum"] projectDir
  | GitCommit =>
      Command "git" ["commit"; "-m"; commitMessage dependency targetVersion] projectDir
  | GitPush => Command "git" ["push"] projectDir
  end.

Fixpoint strings_eqb (a b : list string) : bool :=
  match a, b with
  | [], [] => true
  | x :: a', y :: b' => String.eqb x y && strings_eqb a' b'
  | _, _ => false
  end.

Definition Cmd_eqb (c d : Cmd) : bool :=
  (String.eqb (Name c) (Name d) && strings_eqb (Args c) (Args d))
  && String.eqb (Dir c) (Dir d).

(** The version that [getDependencyVersion] makes of the answer of
    [os.ReadFile], and the decision that [shouldUpgrade] makes of it. *)
Definition versionOf (res : option string) (dependency : string) : string :=
  match res with
  | None => VersionUnknown
  | Some data => scanLines (strings.Split data "010"%char) dependency
  end.

Definition decision (current target : string) : bool :=
  (negb (String.eqb current VersionUnknown)
   && negb (String.eqb current VersionNotFound))
  && negb (String.eqb current target).

(** The answer that [readInput] makes of what [ReadString] gave, and the
    test of the walk function on it. *)
Definition answer_of (text : string) (err : option error) : string :=
  match err with
  | Some _ => ""
  | None => strings.TrimSuffix text strings.nl
  end.

Definition declined (answer : string) : bool :=
  negb (String.eqb answer "y") && negb (String.eqb answer "yes").

(** What the state machine sees of an event. *)
Inductive Label :=
| LRead (upgrade : bool)
| LPrompt
| LAnswer (declined failed : bool)
| LPrintErr
| LCmd (k : CmdKind) (failed dirty master : bool)
| LStat (res : StatResult)
| LLog
| LOther.

(** The project at hand: the manifest, its directory, the dependency and
    the target version, and whether each project is to be confirmed. *)
Record Project := mkProject {
  p_manifest : string;
  p_dir : string;
  p_main : string;
  p_dependency : string;
  p_target : string;
  p_confirm : bool
}.

Definition classify_cmd (p : Project) (c : Cmd) : option CmdKind :=
  find (fun k => Cmd_eqb c (pipeline_cmd (p_dir p) (p_dependency p) (p_target p) k))
       all_kinds.

Definition classify (p : Project) (e : Event) : Label :=
  match e with
  | EvReadFile path res =>
      if String.eqb path (p_manifest p)
      then LRead (decision (versionOf res (p_dependency p)) (p_target p))
      else LOther
  | EvPrintln [Yellow _] => LPrompt
  | EvPrintln [Str _; Str _] => LPrintErr
  | EvPrintln _ => LOther
  | EvReadString text err => LAnswer (declined (answer_of text err)) (isSome err)
  | EvExec c out err =>
      match classify_cmd p c with
      | Some k =>
          LCmd k (isSome err) (0 <? String.length out)%nat
               (String.eqb (strings.TrimSpace out) "master")
      | None => LOther
      end
  | EvStat path res => if String.eqb path (p_main p) then LStat res else LOther
  | EvLog _ _ => LLog
  end.

(** The states of the pipeline of one project (section 4.4 of the
    specification), the two ways it stops early, and its end. *)
Inductive PState :=
| PStart | PDecided | PPrompted | PAnswerFailed | PConfirmed | PClean
| PNeedCheckout | POnMaster | PPulled | PGot | PTidied | PVetted | PTested
| PNeedBuild | PBuilt | PBuildDone | PAdded | PCommitted | PPushed
| PStopped (k : Step)
| PAborted (k : Step).

Definition after (failed : bool) (k : Step) (next : PState) : option PState :=
  Some (if failed then PStopped k else next).

Definition after_check (failed : bool) (k : Step) (next : PState) : option PState :=
  Some (if failed then PAborted k else next).

Definition delta (confirm : bool) (s : PState) (l : Label) : option PState :=
  match l with
  | LLog => Some s
  | LOther => None
  | _ =>
    match s, l with
    | PStart, LRead upgrade =>
        Some (if upgrade then (if confirm then PDecided else PConfirmed)
              else PStopped Decide)
    | PDecided, LPrompt => Some PPrompted
    | PPrompted, LAnswer d failed =>
        Some (if failed then PAnswerFailed
              else if d then PStopped Confirm else PConfirmed)
    | PAnswerFailed, LPrintErr => Some (PStopped Confirm)
    | PConfirmed, LCmd GitStatus _ dirty _ => after dirty CleanTree PClean
    | PClean, LCmd GitRevParse failed _ master =>
        after failed EnsureMain (if master then POnMaster else PNeedCheckout)
    | PNeedCheckout, LCmd GitCheckout failed _ _ => after failed EnsureMain POnMaster
    | POnMaster, LCmd GitPull failed _ _ => after failed Pull PPulled
    | PPulled, LCmd GoGet failed _ _ => after failed DepUpdate PGot
    | PGot, LCmd GoModTidy failed _ _ => after failed DepUpdate PTidied
    | PTidied, LCmd GoVet failed _ _ => after_check failed StaticCheck PVetted
    | PVetted, LCmd GoTest failed _ _ => after_check failed Test PTested
    | PTested, LStat res =>
        Some (match res with
              | StatErrNotExist => PBuildDone
              | _ => PNeedBuild
              end)
    | PNeedBuild, LCmd GoBuild failed _ _ => after_check failed Build PBuilt
    | PBuilt, LCmd RmTmpApp failed _ _ => after_check failed Build PBuildDone
    | PBuildDone, LCmd GitAdd failed _ _ => after failed Commit PAdded
    | PAdded, LCmd GitCommit failed _ _ => after failed Commit PCommitted
    | PCommitted, LCmd GitPush failed _ _ => after failed Push PPushed
    | _, _ => None
    end
  end.

(** The state after a sequence of events, when the machine accepts it. *)
Fixpoint runs (p : Project) (s : PState) (t : list Event) : option PState :=
  match t with
  | [] => Some s
  | e :: t' =>
      match delta (p_confirm p) s (classify p e) with
      | Some s' => runs p s' t'
      | None => None
      end
  end.

(** The states in which the walk function returns. *)
Definition final (s : PState) : bool :=
  match s with
  | PStart | PPushed | PStopped _ | PAborted _ => true
  | _ => false
  end.

(** What the walk function returns in each of them; [err] is the error
    that [filepath.Walk] handed over. *)
Definition result_in (err r : option error) (s : PState) : Prop :=
  match s with
  | PStart => r = err
  | PAborted Build => r = Some aborted_plain
  | PAborted _ => r = Some aborted_see_above
  | _ => r = None
  end.

(** ** The vocabulary of the properties *)

(** The project that a visit of the walk function works on. *)
Definition project_of (env : Env) (dependency targetVersion : string)
  (confirmBeforeEach : bool) (path : string) : Project :=
  mkProject path (filepath_Dir env path)
            (path_Join env (filepath_Dir env path) "main.go")
            dependency targetVersion confirmBeforeEach.







(** What [main] logs when [filepath.Walk] returns an error. *)
Definition walk_error_log (msg : error) : Event :=
  EvLog Error (Sprintf ("Error walking the path: %v" ++ strings.nl)%string [Str msg]).

(** The second field of a line, as the loop of [getDependencyVersion]
    takes it. *)
Definition second_field (line : string) : string :=
  match strings.Fields line with
  | _ :: v :: _ => v
  | _ => VersionNotFound
  end.


(** *** Four sentences of the specification as it states them *)




(** The build runs exactly when the entry point exists, that is when
    [os.Stat] finds it ("if the error is nil, the file exists"). *)
Definition build_iff_entry_point_exists : Prop :=
  forall env dep tgt c path isdir name err h t1 sp res t2,
    snd (run (walkFn env dep tgt c path isdir name err) h)
    = t1 ++ EvStat sp res :: t2 ->
    ((exists out e,
         In (EvExec (pipeline_cmd (filepath_Dir env path) dep tgt GoBuild) out e)
            (t1 ++ EvStat sp res :: t2))
     <-> res = StatOk).

(** ** Definitions used by the proofs *)

Section Judgment.

Variable p : Project.

(** [J s m Qn Qr]: from state [s] the machine accepts what [m] emits, and
    the state it reaches satisfies [Qn] with the value of [m], or [Qr] with
    the value that [m] returns from the function. *)
Definition J {R A} (s : PState) (m : M R A)
  (Qn : A -> PState -> Prop) (Qr : R -> PState -> Prop) : Prop :=
  forall h,
    match m h with
    | (Next a, t) => exists s', runs p s t = Some s' /\ Qn a s'
    | (Return r, t) => exists s', runs p s t = Some s' /\ Qr r s'
    end.

(** The machine goes from [s] with [l] to a state in [Q]. *)
Definition step_to (s : PState) (l : Label) (Q : PState -> Prop) : Prop :=
  match delta (p_confirm p) s l with
  | Some s' => Q s'
  | None => False
  end.

Definition cmd_of (k : CmdKind) : Cmd :=
  pipeline_cmd (p_dir p) (p_dependency p) (p_target p) k.

End Judgment.

(** All steps, states and labels, for the checks that go through every
    transition of the machine. *)
Definition all_steps : list Step :=
  [Decide; Confirm; CleanTree; EnsureMain; Pull; DepUpdate; StaticCheck; Test;
   Build; Commit; Push].

Definition all_states : list PState :=
  [PStart; PDecided; PPrompted; PAnswerFailed; PConfirmed; PClean; PNeedCheckout;
   POnMaster; PPulled; PGot; PTidied; PVetted; PTested; PNeedBuild; PBuilt;
   PBuildDone; PAdded; PCommitted; PPushed]
  ++ map PStopped all_steps ++ map PAborted all_steps.

Definition bools : list bool := [true; false].

Definition all_labels : list Label :=
  map LRead bools
  ++ [LPrompt; LPrintErr; LLog; LOther]
  ++ flat_map (fun d => map (LAnswer d) bools) bools
  ++ map LStat [StatOk; StatErrNotExist; StatErrOther]
  ++ flat_map (fun k =>
       flat_map (fun f =>
         flat_map (fun d => map (LCmd k f d) bools) bools) bools) all_kinds.

Definition holds_everywhere (f : bool -> PState -> Label -> bool) : bool :=
  forallb (fun c => forallb (fun s => forallb (f c s) all_labels) all_states) bools.



(** A finer place: it grows along every run. *)
Definition ord (s : PState) : nat :=
  match s with
  | PStart => 0 | PDecided => 1 | PPrompted => 2 | PAnswerFailed => 3
  | PConfirmed => 4 | PClean => 5 | PNeedCheckout => 6 | POnMaster => 7
  | PPulled => 8 | PGot => 9 | PTidied => 10 | PVetted => 11 | PTested => 12
  | PNeedBuild => 13 | PBuilt => 14 | PBuildDone => 15 | PAdded => 16
  | PCommitted => 17 | PPushed => 18
  | PStopped _ | PAborted _ => 100
  end.

Definition stopped (s : PState) : bool :=
  match s with
  | PStopped _ | PAborted _ => true
  | _ => false
  end.






Definition not_building (s : PState) : bool := negb (Nat.eqb (ord s) 13).




Definition kind_index (k : CmdKind) : nat :=
  match k with
  | GitStatus => 0 | GitRevParse => 1 | GitCheckout => 2 | GitPull => 3
  | GoGet => 4 | GoModTidy => 5 | GoVet => 6 | GoTest => 7 | GoBuild => 8
  | RmTmpApp => 9 | GitAdd => 10 | GitCommit => 11 | GitPush => 12
  end.

Definition is_kind (k : CmdKind) (l : Label) : bool :=
  match l with
  | LCmd k' _ _ _ => Nat.eqb (kind_index k) (kind_index k')
  | _ => false
  end.


Definition always (c : bool) : bool := true.



Definition check_gate (when_confirm : bool -> bool) (G : PState -> bool)
  (L : Label -> bool) (c : bool) (s : PState) (l : Label) : bool :=
  match delta c s l with
  | Some s' => implb (when_confirm c) (implb (negb (G s) && G s') (L l))
  | None => true
  end.

Definition check_ord (c : bool) (s : PState) (l : Label) : bool :=
  match delta c s l with
  | Some s' =>
      (ord s <=? ord s')%nat
      && implb (15 <=? ord s)%nat (negb (is_kind GoBuild l))
  | None => true
  end.



(** A small world: two projects [r/a] and [r/b] under the root [r]. *)
Module Sample.

Definition tab : string := String "009"%char "".

Definition manifest : string :=
  ("module example.com/a" ++ strings.nl ++ strings.nl
   ++ "require (" ++ strings.nl
   ++ tab ++ "github.com/foo/bar v1.2.0" ++ strings.nl
   ++ ")" ++ strings.nl)%string.


Definition Dir (path : string) : string :=
  String.concat "/" (removelast (strings.Split path "/"%char)).

Definition Base (path : string) : string :=
  last (strings.Split path "/"%char) "".

Definition Join (dir file : string) : string := (dir ++ "/" ++ file)%string.

Definition visits : list Visit :=
  [mkVisit "r" true "r" None;
   mkVisit "r/a" true "a" None;
   mkVisit "r/a/go.mod" false "go.mod" None;
   mkVisit "r/b" true "b" None;
   mkVisit "r/b/go.mod" false "go.mod" None].

Definition invokes (name sub : string) (c : Cmd) : bool :=
  String.eqb (Name c) name && String.eqb (hd "" (Args c)) sub.

(** The world is given by the manifest of every project, the command that
    fails (if any), the output of [git status], what [os.Stat] answers and
    the line typed at the prompt. *)
Definition world (content : string) (fails : Cmd -> bool) (status : string)
  (stat : StatResult) (typed : string) : Env :=
  {| ReadFile := fun _ path =>
       if String.eqb (Base path) "go.mod" then Some content else None;
     Stat := fun _ _ => stat;
     CombinedOutput := fun _ c =>
       if invokes "git" "status" c then (status, None)
       else if invokes "git" "rev-parse" c then (("master" ++ strings.nl)%string, None)
       else if fails c then ("failed", Some "exit status 1")
       else ("", None);
     ReadString := fun _ => (typed, None);
     Walk_visits := fun _ _ => visits;
     filepath_Dir := Dir;
     filepath_Base := Base;
     path_Join := Join |}.

Definition nothing_fails (c : Cmd) : bool := false.

Definition all_well : Env := world manifest nothing_fails "" StatOk "".
Definition vet_fails : Env := world manifest (invokes "go" "vet") "" StatOk "".
Definition stat_fails : Env := world manifest nothing_fails "" StatErrOther "".
Definition dirty : Env := world manifest nothing_fails " M main.go" StatOk "".
Definition asked : Env :=
  world manifest nothing_fails "" StatOk ("yes" ++ strings.nl)%string.

Definition dep : string := "github.com/foo/bar".
Definition target : string := "v1.3.0".
Definition args : list string := ["go-dep-updater"; "r"; dep; target].

(** The visit of the manifest of project [r/a]. *)
Definition visit_a (env : Env) (confirm : bool) : option error * list Event :=
  run (walkFn env dep target confirm "r/a/go.mod" false "go.mod" None) [].


Definition event_at (n : nat) (t : list Event) : Event := nth n t (EvPrintln []).

End Sample.

(** ** The vocabulary of further properties *)

(** A command has done its work: [git status] printed nothing (its error is
    dropped), any other command returned no error. *)
Definition succeeded (k : CmdKind) (out : string) (err : option error) : bool :=
  match k with
  | GitStatus => String.eqb out ""
  | _ => negb (isSome err)
  end.

(** The command that the walk function runs next after command [k] has
    succeeded with output [out]; none after [go test] (the walk function
    asks [os.Stat] first) and after [git push]. *)
Definition next_kind (k : CmdKind) (out : string) : option CmdKind :=
  match k with
  | GitStatus => Some GitRevParse
  | GitRevParse =>
      Some (if String.eqb (strings.TrimSpace out) "master" then GitPull else GitCheckout)
  | GitCheckout => Some GitPull
  | GitPull => Some GoGet
  | GoGet => Some GoModTidy
  | GoModTidy => Some GoVet
  | GoVet => Some GoTest
  | GoTest => None
  | GoBuild => Some RmTmpApp
  | RmTmpApp => Some GitAdd
  | GitAdd => Some GitCommit
  | GitCommit => Some GitPush
  | GitPush => None
  end.

(** The command after [os.Stat] has answered. *)
Definition after_stat (res : StatResult) : CmdKind :=
  match res with
  | StatErrNotExist => GitAdd
  | _ => GoBuild
  end.

(** What the walk function returns when command [k] has failed. *)
Definition abort_message (k : CmdKind) : option error :=
  match k with
  | GoVet | GoTest => Some aborted_see_above
  | GoBuild | RmTmpApp => Some aborted_plain
  | _ => None
  end.

(** The commands that are run on every way to a later command. *)
Definition on_every_way : list CmdKind :=
  [GitStatus; GitRevParse; GitPull; GoGet; GoModTidy; GoVet; GoTest; GitAdd; GitCommit].

(** The commands that must have succeeded before command [k] is run. *)
Definition requires (k : CmdKind) : list CmdKind :=
  filter (fun j => (kind_index j <? kind_index k)%nat) on_every_way
  ++ match k with RmTmpApp => [GoBuild] | _ => [] end.

(** The states that the machine is in after command [j] has succeeded. *)
Definition past (j : CmdKind) (s : PState) : bool :=
  match j with
  | GoBuild => Nat.eqb (ord s) 14
  | _ =>
      (match j with
       | GitStatus => 5 | GitRevParse => 6 | GitCheckout => 7 | GitPull => 8
       | GoGet => 9 | GoModTidy => 10 | GoVet => 11 | GoTest => 12
       | GoBuild => 14 | RmTmpApp => 15 | GitAdd => 16 | GitCommit => 17
       | GitPush => 18
       end <=? ord s)%nat
      && (ord s <? 100)%nat
  end.

Definition is_success (j : CmdKind) (l : Label) : bool :=
  match l with
  | LCmd k failed dirty _ =>
      Nat.eqb (kind_index j) (kind_index k)
      && match j with GitStatus => negb dirty | _ => negb failed end
  | _ => false
  end.

Definition check_requires (c : bool) (s : PState) (l : Label) : bool :=
  match delta c s l with
  | Some _ =>
      match l with
      | LCmd k _ _ _ => forallb (fun j => past j s) (requires k)
      | _ => true
      end
  | None => true
  end.

(** After a success the machine waits for the next command. *)
Definition check_next (c : bool) (s : PState) (l : Label) : bool :=
  match delta c s l with
  | Some s' =>
      implb (negb (stopped s'))
        (forallb (fun l' =>
           match delta c s' l' with
           | Some _ =>
               match l, l' with
               | _, LLog => true
               | LCmd GitRevParse _ _ m, LCmd k' _ _ _ =>
                   Nat.eqb (kind_index k')
                     (kind_index (if m then GitPull else GitCheckout))
               | LCmd GoTest _ _ _, LStat _ => true
               | LCmd GoTest _ _ _, _ => false
               | LCmd GitPush _ _ _, _ => false
               | LCmd k _ _ _, LCmd k' _ _ _ =>
                   match next_kind k "" with
                   | Some n => Nat.eqb (kind_index k') (kind_index n)
                   | None => false
                   end
               | LStat res, LCmd k' _ _ _ =>
                   Nat.eqb (kind_index k') (kind_index (after_stat res))
               | LCmd _ _ _ _, _ => false
               | LStat _, _ => false
               | _, _ => true
               end
           | None => true
           end) all_labels)
  | None => true
  end.

Definition check_goes_on (c : bool) (s : PState) (l : Label) : bool :=
  match delta c s l with
  | Some s' =>
      match l with
      | LCmd GitPush _ _ _ => true
      | LCmd k _ _ _ => implb (is_success k l) (negb (stopped s') && negb (final s'))
      | LStat _ => negb (stopped s') && negb (final s')
      | _ => true
      end
  | None => true
  end.

Definition check_failure (c : bool) (s : PState) (l : Label) : bool :=
  match delta c s l with
  | Some s' =>
      match l with
      | LCmd GitStatus _ _ _ => true
      | LCmd k true _ _ =>
          match s' with
          | PStopped _ => negb (isSome (abort_message k))
          | PAborted Build => match abort_message k with
                              | Some m => String.eqb m aborted_plain
                              | None => false
                              end
          | PAborted _ => match abort_message k with
                          | Some m => String.eqb m aborted_see_above
                          | None => false
                          end
          | _ => false
          end
      | _ => true
      end
  | None => true
  end.

Definition aborting (s : PState) : bool :=
  match s with PAborted _ => true | _ => false end.

Definition is_failed_check (l : Label) : bool :=
  match l with
  | LCmd k true _ _ => isSome (abort_message k)
  | _ => false
  end.

(** The commands of a sequence of events, in order. *)
Definition commands (t : list Event) : list Cmd :=
  flat_map (fun e => match e with EvExec c _ _ => [c] | _ => [] end) t.

(** The commands of a visit in which every step succeeds, with and without
    the change of branch and the build. *)
Definition full_pipeline (checkout build : bool) : list CmdKind :=
  [GitStatus; GitRevParse]
  ++ (if checkout then [GitCheckout] else [])
  ++ [GitPull; GoGet; GoModTidy; GoVet; GoTest]
  ++ (if build then [GoBuild; RmTmpApp] else [])
  ++ [GitAdd; GitCommit; GitPush].

(** [Run m h Q]: what [m] answers and emits after [h] satisfies [Q]. *)
Definition Run {R A} (m : M R A) (h : list Event)
  (Q : Flow R A -> list Event -> Prop) : Prop :=
  Q (fst (m h)) (snd (m h)).




(** No line feed in the string. *)
Fixpoint one_line (s : string) : bool :=
  match s with
  | "" => true
  | String c s' => negb (Ascii.eqb c "010"%char) && one_line s'
  end.


(** The line that a string begins with. *)
Fixpoint takeline (s : string) : string :=
  match s with
  | "" => ""
  | String c s' => if Ascii.eqb c "010"%char then "" else String c (takeline s')
  end.

(** The prompt that [readInput] prints. *)
Definition prompt_event (prompt : string) (args : list Msg) : Event :=
  EvPrintln [Yellow (Cat (Str ">>> ") (Sprintf prompt args))].

(** The format of the error message of the walk function for each command. *)
Definition error_format (k : CmdKind) : string :=
  match k with
  | GitStatus => ""
  | GitRevParse => "Error determining current branch for project %s: %v"
  | GitCheckout => "Error switching to 'master' branch for project %s: %v"
  | GitPull => "Error pulling changes for project %s: %v"
  | GoGet | GoModTidy => "Error updating dependency for project %s: %v"
  | GoVet => "Error running go vet for project %s: %v"
  | GoTest => "Error running go test for project %s: %v"
  | GoBuild | RmTmpApp => "Error running go build for project %s: %v"
  | GitAdd | GitCommit => "Error committing changes for project %s: %v"
  | GitPush => "Error pushing changes for project %s: %v"
  end.

(** What [printIndentedError] logs for the failure [x] of command [k] that
    had printed [out]. *)
Definition error_log (name : string) (k : CmdKind) (x : error) (out : string) : Event :=
  EvLog Error
    (Sprintf "%s: %s"
       [Str name; Sprintf (error_format k) [Str name; Str (Errorf_v_s x out)]]).

(** Every failure of a command but [git status] is followed by its error
    message and nothing else. *)
Fixpoint reported (cmd : CmdKind -> Cmd) (name : string) (t : list Event) : Prop :=
  match t with
  | [] => True
  | EvExec c out (Some x) :: rest =>
      (c = cmd GitStatus
       \/ exists k, c = cmd k /\ rest = [error_log name k x out])
      /\ reported cmd name rest
  | _ :: rest => reported cmd name rest
  end.

(** No command but [git status] has failed. *)
Fixpoint quiet (cmd : CmdKind -> Cmd) (t : list Event) : Prop :=
  match t with
  | [] => True
  | EvExec c _ (Some _) :: rest => c = cmd GitStatus /\ quiet cmd rest
  | _ :: rest => quiet cmd rest
  end.

(** What a statement may leave behind: a quiet trace when the function goes
    on, a reported one when it returns. *)
Definition Good (cmd : CmdKind -> Cmd) (name : string) {R A}
  (fl : Flow R A) (t : list Event) : Prop :=
  match fl with
  | Next _ => quiet cmd t
  | Return _ => reported cmd name t
  end.

(** More small worlds. *)
Module Cases.

(** [env] with another walk of the root. *)
Definition with_visits (env : Env) (vs : list Visit) : Env :=
  {| ReadFile := ReadFile env;
     Stat := Stat env;
     CombinedOutput := CombinedOutput env;
     ReadString := ReadString env;
     Walk_visits := fun _ _ => vs;
     filepath_Dir := filepath_Dir env;
     filepath_Base := filepath_Base env;
     path_Join := path_Join env |}.

(** A tree without any manifest. *)
Definition no_manifest : Env :=
  with_visits Sample.all_well
    [mkVisit "r" true "r" None;
     mkVisit "r/a" true "a" None;
     mkVisit "r/a/main.go" false "main.go" None].

Definition denied : error := "open r/a: permission denied".

(** A tree in which directory [r/a] cannot be read. *)
Definition locked : Env :=
  with_visits Sample.all_well
    [mkVisit "r" true "r" None;
     mkVisit "r/a" true "a" None;
     mkVisit "r/a" true "a" (Some denied);
     mkVisit "r/b" true "b" None;
     mkVisit "r/b/go.mod" false "go.mod" None].

(** The user answers "n". *)
Definition refused : Env :=
  Sample.world Sample.manifest Sample.nothing_fails "" StatOk ("n" ++ strings.nl)%string.

End Cases.

(** * Properties *)

(** ** The string functions on examples *)

Example Split_two_lines :
  strings.Split ("module m" ++ strings.nl ++ "go 1.21") "010"%char = ["module m"; "go 1.21"].
Proof. reflexivity. Qed.

Example Split_empty : strings.Split "" "010"%char = [""].
Proof. reflexivity. Qed.

Example Fields_require_line :
  strings.Fields (String "009"%char "github.com/foo/bar v1.2.0 // indirect")
  = ["github.com/foo/bar"; "v1.2.0"; "//"; "indirect"].
Proof. reflexivity. Qed.

Example TrimSpace_branch : strings.TrimSpace ("master" ++ strings.nl) = "master".
Proof. reflexivity. Qed.

Example TrimSuffix_yes : strings.TrimSuffix ("yes" ++ strings.nl) strings.nl = "yes".
Proof. reflexivity. Qed.

Example TrimSuffix_none : strings.TrimSuffix "yes" strings.nl = "yes".
Proof. reflexivity. Qed.

Example Contains_empty : strings.Contains "" "" = true.
Proof. reflexivity. Qed.

Section Refinement.

Variable env : Env.
Variable p : Project.

Lemma runs_app s t1 t2 :
  runs p s (t1 ++ t2) =
  match runs p s t1 with
  | Some s1 => runs p s1 t2
  | None => None
  end.
Proof.
  revert s. induction t1 as [|e t1 IH]; intros s; cbn; [reflexivity|].
  destruct (delta (p_confirm p) s (classify p e)); [apply IH | reflexivity].
Qed.

Lemma J_ret {R A} s (a : A) Qn (Qr : R -> PState -> Prop) :
  Qn a s -> J p s (ret a) Qn Qr.
Proof. intros H h. cbn. eauto. Qed.

Lemma J_return {R A} s (r : R) (Qn : A -> PState -> Prop) Qr :
  Qr r s -> J p s (return_ r) Qn Qr.
Proof. intros H h. cbn. eauto. Qed.

Lemma J_bind {R A B} s (m : M R A) (k : A -> M R B) Qn Qr :
  J p s m (fun a s1 => J p s1 (k a) Qn Qr) Qr -> J p s (bind m k) Qn Qr.
Proof.
  intros H h. unfold bind. specialize (H h).
  destruct (m h) as [[a|r] t1]; destruct H as (s1 & H1 & H2).
  - specialize (H2 (h ++ t1)).
    destruct (k a (h ++ t1)) as [[b|r] t2]; destruct H2 as (s2 & H2 & H3);
      exists s2; rewrite runs_app, H1; auto.
  - eauto.
Qed.

Lemma J_conseq {R A} s (m : M R A) (Qn Qn' : A -> PState -> Prop)
  (Qr Qr' : R -> PState -> Prop) :
  J p s m Qn Qr ->
  (forall a s', Qn a s' -> Qn' a s') ->
  (forall r s', Qr r s' -> Qr' r s') ->
  J p s m Qn' Qr'.
Proof.
  intros H Hn Hr h. specialize (H h).
  destruct (m h) as [[a|r] t]; destruct H as (s' & H1 & H2); eauto.
Qed.

(** The cut: a statement after which the machine is in one known state. *)
Lemma J_seq {R A B} s mid (m : M R A) (k : A -> M R B) Qn Qr :
  J p s m (fun _ s1 => s1 = mid) Qr ->
  (forall a, J p mid (k a) Qn Qr) ->
  J p s (bind m k) Qn Qr.
Proof.
  intros H1 H2. apply J_bind. eapply J_conseq; [exact H1 | | auto].
  intros a s' ->. apply H2.
Qed.

Lemma J_emit {R} s s' e (Qn : unit -> PState -> Prop) (Qr : R -> PState -> Prop) :
  delta (p_confirm p) s (classify p e) = Some s' -> Qn tt s' -> J p s (emit e) Qn Qr.
Proof. intros H1 H2 h. cbn. rewrite H1. eauto. Qed.

Lemma J_log {R} s lvl msg (Qn : unit -> PState -> Prop) (Qr : R -> PState -> Prop) :
  Qn tt s -> J p s (emit (EvLog lvl msg)) Qn Qr.
Proof. intros H. eapply J_emit; [reflexivity | exact H]. Qed.

Lemma J_func {R A} s (body : M A A) (Q : A -> PState -> Prop) (Qr : R -> PState -> Prop) :
  J p s body Q Q -> J p s (func body) Q Qr.
Proof.
  intros H h. unfold func. specialize (H h).
  destruct (body h) as [[a|a] t]; exact H.
Qed.

Lemma J_when {R} s (c : bool) (body : M R unit) Qn Qr :
  (c = true -> J p s body Qn Qr) -> (c = false -> Qn tt s) -> J p s (when c body) Qn Qr.
Proof.
  destruct c; cbn; intros H1 H2; [auto | apply J_ret; auto].
Qed.

Lemma step_to_elim s l Q :
  step_to p s l Q -> exists s', delta (p_confirm p) s l = Some s' /\ Q s'.
Proof.
  unfold step_to. destruct (delta _ s l) as [s'|]; [eauto | contradiction].
Qed.

Lemma runs_one s e s' t :
  delta (p_confirm p) s (classify p e) = Some s' ->
  runs p s (e :: t) = runs p s' t.
Proof. intros H. cbn [runs]. now rewrite H. Qed.

Lemma runs_single s e s' :
  delta (p_confirm p) s (classify p e) = Some s' ->
  runs p s [e] = Some s'.
Proof. intros H. cbn [runs]. now rewrite H. Qed.

Lemma classify_cmd_pipeline k :
  classify_cmd p (pipeline_cmd (p_dir p) (p_dependency p) (p_target p) k) = Some k.
Proof.
  unfold classify_cmd.
  destruct k; cbn; unfold Cmd_eqb; cbn; rewrite ?String.eqb_refl; reflexivity.
Qed.

Lemma J_exec {R} s k (Qn : string * option error -> PState -> Prop)
  (Qr : R -> PState -> Prop) :
  (forall out err,
      step_to p s (LCmd k (isSome err) (0 <? String.length out)%nat
                      (String.eqb (strings.TrimSpace out) "master"))
              (Qn (out, err))) ->
  J p s (executeCommand env (pipeline_cmd (p_dir p) (p_dependency p) (p_target p) k)) Qn Qr.
Proof.
  intros H h. unfold executeCommand.
  destruct (CombinedOutput env h _) as [out err].
  destruct (step_to_elim _ _ _ (H out err)) as (s' & E & HQ).
  exists s'. split; [|exact HQ].
  apply runs_single. cbn [classify]. now rewrite classify_cmd_pipeline.
Qed.

Lemma J_shouldUpgrade {R} s (Qn : string * bool -> PState -> Prop)
  (Qr : R -> PState -> Prop) :
  (forall res,
      step_to p s (LRead (decision (versionOf res (p_dependency p)) (p_target p)))
        (Qn (versionOf res (p_dependency p),
             decision (versionOf res (p_dependency p)) (p_target p)))) ->
  J p s (shouldUpgrade env (p_manifest p) (p_dependency p) (p_target p)) Qn Qr.
Proof.
  intros H h. unfold shouldUpgrade, getDependencyVersion, bind, os_ReadFile.
  destruct (ReadFile env h (p_manifest p)) as [data|];
    match goal with |- context [EvReadFile _ ?r] =>
      destruct (step_to_elim _ _ _ (H r)) as (s' & E & HQ)
    end;
    cbn [ret app]; exists s'; (split; [|exact HQ]);
    apply runs_single; cbn [classify]; now rewrite String.eqb_refl.
Qed.

Lemma J_readInput {R} s prompt args (Qn : string -> PState -> Prop)
  (Qr : R -> PState -> Prop) :
  (forall text err,
      step_to p s LPrompt (fun s1 =>
        step_to p s1 (LAnswer (declined (answer_of text err)) (isSome err)) (fun s2 =>
          match err with
          | Some _ => step_to p s2 LPrintErr (Qn "")
          | None => Qn (strings.TrimSuffix text strings.nl) s2
          end))) ->
  J p s (readInput env prompt args) Qn Qr.
Proof.
  intros H h. unfold readInput, bind, fmt_Println, emit, reader_ReadString.
  destruct (ReadString env _) as [text err].
  destruct (step_to_elim _ _ _ (H text err)) as (s1 & E1 & H1).
  destruct (step_to_elim _ _ _ H1) as (s2 & E2 & H2).
  destruct err as [e|].
  - destruct (step_to_elim _ _ _ H2) as (s3 & E3 & H3).
    exists s3. split; [|exact H3]. cbn [app ret runs classify].
    now rewrite E1, E2, E3.
  - exists s2. split; [|exact H2]. cbn [app ret runs classify].
    now rewrite E1, E2.
Qed.

Lemma J_Stat {R} s (Qn : StatResult -> PState -> Prop) (Qr : R -> PState -> Prop) :
  (forall res, step_to p s (LStat res) (Qn res)) ->
  J p s (os_Stat env (p_main p)) Qn Qr.
Proof.
  intros H h. unfold os_Stat.
  destruct (Stat env h (p_main p));
    match goal with |- context [EvStat _ ?r] =>
      destruct (step_to_elim _ _ _ (H r)) as (s' & E & HQ)
    end;
    exists s'; (split; [|exact HQ]);
    apply runs_single; cbn [classify]; now rewrite String.eqb_refl.
Qed.

End Refinement.

Ltac as_pipeline_cmd P c :=
  first
    [ change c with (pipeline_cmd (p_dir P) (p_dependency P) (p_target P) GitStatus)
    | change c with (pipeline_cmd (p_dir P) (p_dependency P) (p_target P) GitRevParse)
    | change c with (pipeline_cmd (p_dir P) (p_dependency P) (p_target P) GitCheckout)
    | change c with (pipeline_cmd (p_dir P) (p_dependency P) (p_target P) GitPull)
    | change c with (pipeline_cmd (p_dir P) (p_dependency P) (p_target P) GoGet)
    | change c with (pipeline_cmd (p_dir P) (p_dependency P) (p_target P) GoModTidy)
    | change c with (pipeline_cmd (p_dir P) (p_dependency P) (p_target P) GoVet)
    | change c with (pipeline_cmd (p_dir P) (p_dependency P) (p_target P) GoTest)
    | change c with (pipeline_cmd (p_dir P) (p_dependency P) (p_target P) GoBuild)
    | change c with (pipeline_cmd (p_dir P) (p_dependency P) (p_target P) RmTmpApp)
    | change c with (pipeline_cmd (p_dir P) (p_dependency P) (p_target P) GitAdd)
    | change c with (pipeline_cmd (p_dir P) (p_dependency P) (p_target P) GitCommit)
    | change c with (pipeline_cmd (p_dir P) (p_dependency P) (p_target P) GitPush) ].

Ltac head_of t := lazymatch t with ?f _ => head_of f | _ => t end.

Ltac simpl_step :=
  cbv beta iota delta [step_to delta after after_check isSome wrapped
                       p_confirm project_of declined answer_of].

Ltac has_var c := match c with context [?x] => is_var x end.

(* Case analysis on the condition [b]: on the variable it inspects, on [b]
   itself, or none when it is known or computes. *)
Ltac destruct_cond b :=
  lazymatch b with
  | true => idtac
  | false => idtac
  | match ?x with _ => _ end => destruct_cond x
  | _ =>
      lazymatch goal with
      | H : b = _ |- _ => rewrite H
      | _ =>
          tryif is_var b then destruct b
          else tryif has_var b then destruct b eqn:?
          else (let v := eval vm_compute in b in change b with v)
      end
  end.

Ltac on_state tac :=
  lazymatch goal with
  | |- J _ (if ?b then _ else _) _ _ _ => destruct_cond b; simpl_step
  | |- J _ (match ?b with _ => _ end) _ _ _ => destruct_cond b; simpl_step
  | _ => tac
  end.

Ltac jstep :=
  lazymatch goal with
  | |- J _ _ (bind _ _) _ _ => apply J_bind
  | |- J _ _ (ret _) _ _ => apply J_ret
  | |- J _ _ (return_ _) _ _ => apply J_return
  | |- J _ _ (emit (EvLog _ _)) _ _ => apply J_log
  | |- J _ _ (func _) _ _ => apply J_func
  | |- J ?P _ (shouldUpgrade ?e _ _ _) _ _ =>
      on_state ltac:(apply (J_shouldUpgrade e P); intros ?res; simpl_step)
  | |- J ?P _ (readInput ?e _ _) _ _ =>
      on_state ltac:(apply (J_readInput e P); intros ?text ?err; simpl_step)
  | |- J ?P _ (os_Stat ?e _) _ _ =>
      on_state ltac:(apply (J_Stat e P); intros ?res; simpl_step)
  | |- J ?P _ (executeCommand _ ?c) _ _ =>
      on_state ltac:(as_pipeline_cmd P c; apply J_exec; intros ?out ?err; simpl_step)
  | |- J _ _ (when ?c _) _ _ =>
      let c' := eval cbv beta iota delta [isSome wrapped negb andb] in c in
      change c with c';
      lazymatch c' with
      | true => unfold when at 1
      | false => unfold when at 1
      | _ => destruct_cond c'; simpl_step
      end
  | |- J _ _ (match ?x with _ => _ end) _ _ =>
      tryif is_var x then destruct x; simpl_step else (progress (cbv beta iota))
  | |- J _ _ ?m _ _ => let f := head_of m in unfold f at 1
  | |- forall _, _ => intro
  | |- match ?x with _ => _ end => destruct_cond x; simpl_step
  | |- False => fail
  | |- final (if ?b then _ else _) = true /\ _ => destruct_cond b; simpl_step
  | |- final (match ?b with _ => _ end) = true /\ _ => destruct_cond b; simpl_step
  | |- _ /\ _ => fail
  | |- _ => progress (cbv beta iota)
  end.

Lemma walkFn_refines R env dep tgt c path isdir name err :
  J (project_of env dep tgt c path) PStart
    (walkFn (R:=R) env dep tgt c path isdir name err)
    (fun r s => final s = true /\ result_in err r s)
    (fun _ _ => False).
Proof.
  unfold walkFn. apply J_func.
  repeat jstep.
  all: split; reflexivity.
Qed.

(** Lemmas *)

Lemma all_states_complete s : In s all_states.
Proof. destruct s as [| | | | | | | | | | | | | | | | | | |k|k]; try destruct k; cbn; tauto. Qed.

Lemma bools_complete b : In b bools.
Proof. destruct b; cbn; tauto. Qed.

Lemma all_labels_complete l : In l all_labels.
Proof.
  destruct l as [[]| |[] []| |k [] [] []|[]| |]; try destruct k;
    vm_compute; tauto.
Qed.

Lemma holds_everywhere_spec f :
  holds_everywhere f = true -> forall c s l, f c s l = true.
Proof.
  unfold holds_everywhere. intros H c s l.
  rewrite forallb_forall in H. specialize (H c (bools_complete c)).
  rewrite forallb_forall in H. specialize (H s (all_states_complete s)).
  rewrite forallb_forall in H. exact (H l (all_labels_complete l)).
Qed.

Section Machine.

Variable p : Project.

Lemma runs_split s t1 e t2 s' :
  runs p s (t1 ++ e :: t2) = Some s' ->
  exists s1 s2,
    runs p s t1 = Some s1
    /\ delta (p_confirm p) s1 (classify p e) = Some s2
    /\ runs p s2 t2 = Some s'.
Proof.
  rewrite runs_app. destruct (runs p s t1) as [s1|]; [|discriminate].
  cbn [runs]. destruct (delta _ s1 _) as [s2|] eqn:E; [|discriminate].
  intros H. exists s1, s2. auto.
Qed.

Lemma runs_In s t s' e :
  runs p s t = Some s' -> In e t ->
  exists s1 s2,
    delta (p_confirm p) s1 (classify p e) = Some s2
    /\ (exists t1, runs p s t1 = Some s1)
    /\ (exists t2, runs p s2 t2 = Some s').
Proof.
  intros H Hin. apply in_split in Hin as (t1 & t2 & ->).
  apply runs_split in H as (s1 & s2 & H1 & H2 & H3). eauto 8.
Qed.

(** A property of single transitions, checked on all of them, holds along
    every run. *)
Lemma runs_ind (Inv : PState -> PState -> Prop) :
  (forall s, Inv s s) ->
  (forall s l s1 s2, delta (p_confirm p) s l = Some s1 -> Inv s1 s2 -> Inv s s2) ->
  forall t s s', runs p s t = Some s' -> Inv s s'.
Proof.
  intros Hrefl Hstep. induction t as [|e t IH]; intros s s' H; cbn in H.
  - injection H as <-. apply Hrefl.
  - destruct (delta _ s _) as [s1|] eqn:E; [|discriminate]. eauto.
Qed.








Lemma delta_stopped c s l s' :
  delta c s l = Some s' -> stopped s = true -> l = LLog /\ s' = s.
Proof.
  intros H Hs. destruct s; try discriminate; destruct l; try discriminate;
    cbn in H; injection H as <-; auto.
Qed.


Lemma runs_stopped t : forall s s',
  runs p s t = Some s' -> stopped s = true ->
  s' = s /\ forall e, In e t -> classify p e = LLog.
Proof.
  induction t as [|x t IH]; intros s s' H Hs; cbn in H.
  - injection H as <-. split; [reflexivity | intros e []].
  - destruct (delta _ s _) as [s1|] eqn:E; [|discriminate].
    destruct (delta_stopped _ _ _ _ E Hs) as [Hl ->].
    destruct (IH _ _ H Hs) as [-> Hall].
    split; [reflexivity|]. intros e [<-|Hin]; auto.
Qed.

(** A gate: a set [G] of states that is entered only by an event in [L].
    A run from outside [G] that ends inside has an event of [L]. *)
Lemma crossing (G : PState -> bool) (L : Label -> bool) :
  (forall s l s', delta (p_confirm p) s l = Some s' ->
                  G s = false -> G s' = true -> L l = true) ->
  forall t s s', runs p s t = Some s' -> G s = false -> G s' = true ->
  exists e, In e t /\ L (classify p e) = true.
Proof.
  intros Hgate. induction t as [|x t IH]; intros s s' H Hs Hs'; cbn in H.
  - injection H as <-. congruence.
  - destruct (delta _ s _) as [s1|] eqn:E; [|discriminate].
    destruct (G s1) eqn:E1.
    + exists x. split; [now left | eauto].
    + destruct (IH _ _ H E1 Hs') as (e & Hin & He).
      exists e. split; [now right | exact He].
Qed.

(** A set [G] of states that is never left, and in which no event of [B]
    is accepted. *)
Lemma closed_set (G : PState -> bool) (B : Label -> bool) :
  (forall s l s', delta (p_confirm p) s l = Some s' ->
                  G s = true -> G s' = true /\ B l = false) ->
  forall t s s', runs p s t = Some s' -> G s = true ->
  G s' = true /\ forall e, In e t -> B (classify p e) = false.
Proof.
  intros Hclosed. induction t as [|x t IH]; intros s s' H Hs; cbn in H.
  - injection H as <-. split; [exact Hs | intros e []].
  - destruct (delta _ s _) as [s1|] eqn:E; [|discriminate].
    destruct (Hclosed _ _ _ E Hs) as [Hs1 Hb].
    destruct (IH _ _ H Hs1) as [Hs' Hall].
    split; [exact Hs'|]. intros e [<-|Hin]; auto.
Qed.

End Machine.

Lemma strings_eqb_eq a : forall b, strings_eqb a b = true -> a = b.
Proof.
  induction a as [|x a IH]; intros [|y b] H; cbn in H; try discriminate; auto.
  apply andb_true_iff in H as [H1 H2]. apply String.eqb_eq in H1.
  f_equal; auto.
Qed.

Lemma Cmd_eqb_eq c d : Cmd_eqb c d = true -> c = d.
Proof.
  destruct c as [n a x], d as [n' a' x']. unfold Cmd_eqb. cbn. intros H.
  apply andb_true_iff in H as [H H3]. apply andb_true_iff in H as [H1 H2].
  apply String.eqb_eq in H1, H3. apply strings_eqb_eq in H2. congruence.
Qed.

Section Classification.

Variable p : Project.

Lemma classify_cmd_Some c k : classify_cmd p c = Some k -> c = cmd_of p k.
Proof.
  unfold classify_cmd. intros H. apply find_some in H as [_ H].
  now apply Cmd_eqb_eq in H.
Qed.

Lemma classify_exec k out err :
  classify p (EvExec (cmd_of p k) out err)
  = LCmd k (isSome err) (0 <? String.length out)%nat
         (String.eqb (strings.TrimSpace out) "master").
Proof. cbn [classify]. unfold cmd_of. now rewrite classify_cmd_pipeline. Qed.

Lemma classify_LCmd e k f d m :
  classify p e = LCmd k f d m ->
  exists out err,
    e = EvExec (cmd_of p k) out err /\ f = isSome err
    /\ d = (0 <? String.length out)%nat.
Proof.
  destruct e as [path res|path res|c out err|ops|text err|lvl msg]; cbn [classify].
  - destruct (String.eqb path _); easy.
  - destruct (String.eqb path _); easy.
  - destruct (classify_cmd p c) as [k'|] eqn:E; [|easy].
    intros [= -> <- <- <-]. apply classify_cmd_Some in E as ->. eauto.
  - destruct ops as [|[| | |] [|[| | |] [|]]]; easy.
  - easy.
  - easy.
Qed.



Lemma classify_LLog e :
  classify p e = LLog -> exists lvl msg, e = EvLog lvl msg.
Proof.
  destruct e as [path res|path res|c out err|ops|text err|lvl msg]; cbn [classify].
  - destruct (String.eqb path _); easy.
  - destruct (String.eqb path _); easy.
  - destruct (classify_cmd p c); easy.
  - destruct ops as [|[| | |] [|[| | |] [|]]]; easy.
  - easy.
  - eauto.
Qed.

Lemma classify_Stat path res l :
  classify p (EvStat path res) = l -> l <> LOther ->
  path = p_main p /\ l = LStat res.
Proof.
  cbn. destruct (String.eqb _ _) eqn:E; intros <- H; [|congruence].
  apply String.eqb_eq in E. auto.
Qed.

Lemma delta_not_other c s s' : delta c s LOther = Some s' -> False.
Proof. destruct s; discriminate. Qed.

End Classification.


Lemma walkFn_accepted env dep tgt c path isdir name err h :
  exists s,
    runs (project_of env dep tgt c path) PStart
         (snd (run (walkFn env dep tgt c path isdir name err) h)) = Some s
    /\ final s = true
    /\ result_in err (fst (run (walkFn env dep tgt c path isdir name err) h)) s.
Proof.
  pose proof (walkFn_refines (option error) env dep tgt c path isdir name err h) as H.
  unfold run. destruct (walkFn env dep tgt c path isdir name err h) as [[r|r] t];
    cbn; destruct H as (s & H1 & H2); [|contradiction].
  exists s. tauto.
Qed.





Lemma gate_build_ok :
  holds_everywhere (check_gate always not_building (is_kind GoBuild)) = true.
Proof. vm_compute. reflexivity. Qed.

Lemma check_ord_ok : holds_everywhere check_ord = true.
Proof. vm_compute. reflexivity. Qed.



Section Gates.

Variable p : Project.

Lemma gate_crossing when_confirm G L :
  holds_everywhere (check_gate when_confirm G L) = true ->
  when_confirm (p_confirm p) = true ->
  forall t s s', runs p s t = Some s' -> G s = false -> G s' = true ->
  exists e, In e t /\ L (classify p e) = true.
Proof.
  intros C Hc. apply crossing. intros s l s' Hd Hs Hs'.
  pose proof (holds_everywhere_spec _ C (p_confirm p) s l) as X.
  unfold check_gate in X. rewrite Hd, Hc, Hs, Hs' in X. exact X.
Qed.

Lemma delta_ord s l s' :
  delta (p_confirm p) s l = Some s' ->
  ord s <= ord s' /\ (15 <= ord s -> is_kind GoBuild l = false).
Proof.
  intros Hd. pose proof (holds_everywhere_spec _ check_ord_ok (p_confirm p) s l) as X.
  unfold check_ord in X. rewrite Hd in X. apply andb_true_iff in X as [X1 X2].
  apply Nat.leb_le in X1. split; [exact X1|]. intros Ho.
  apply Nat.leb_le in Ho. rewrite Ho in X2. now apply negb_true_iff in X2.
Qed.

Lemma runs_ord t s s' : runs p s t = Some s' -> ord s <= ord s'.
Proof.
  apply (runs_ind p (fun a b => ord a <= ord b)); [lia|].
  intros a l b c Hd Hbc. apply delta_ord in Hd as [Hd _]. lia.
Qed.

Lemma runs_past_build t s s' :
  runs p s t = Some s' -> 15 <= ord s ->
  forall e, In e t -> is_kind GoBuild (classify p e) = false.
Proof.
  intros H Ho.
  apply (closed_set p (fun x => (15 <=? ord x)%nat) (is_kind GoBuild)) with (s := s) (s' := s').
  - intros a l b Hd Ha. apply Nat.leb_le in Ha.
    destruct (delta_ord _ _ _ Hd) as [H1 H2]. split; [|auto].
    apply Nat.leb_le. lia.
  - exact H.
  - now apply Nat.leb_le.
Qed.






End Gates.




(** Claim C7, amended.  For every project that reaches the conditional
    build step ([os.Stat] is asked about [main.go] in the directory of the
    project), [go build] is run if and only if [os.Stat] does not answer
    that the file does not exist: it is run when the file exists and also
    when [os.Stat] fails with any other error, and not run when the file
    does not exist. *)
Theorem build_unless_stat_says_not_exist
  env dep tgt c path isdir name err h t1 sp res t2 :
  snd (run (walkFn env dep tgt c path isdir name err) h)
  = t1 ++ EvStat sp res :: t2 ->
  sp = path_Join env (filepath_Dir env path) "main.go"
  /\ ((exists out e,
         In (EvExec (pipeline_cmd (filepath_Dir env path) dep tgt GoBuild) out e)
            (t1 ++ EvStat sp res :: t2))
      <-> res <> StatErrNotExist).
Proof.
  intros Ht.
  destruct (walkFn_accepted env dep tgt c path isdir name err h) as (s & Hr & Hf & _).
  rewrite Ht in Hr. apply runs_split in Hr as (s1 & s2 & H1 & H2 & H3).
  set (p := project_of env dep tgt c path) in *.
  change (pipeline_cmd (filepath_Dir env path) dep tgt GoBuild) with (cmd_of p GoBuild).
  destruct (classify_Stat p sp res _ eq_refl) as [Hsp Hl].
  { intros E. rewrite E in H2. now apply delta_not_other in H2. }
  rewrite Hl in H2. split; [exact Hsp|].
  assert (Hs1 : s1 = PTested) by (destruct s1; try discriminate; reflexivity).
  subst s1. cbn in H2. injection H2 as <-.
  split.
  - intros (out & e & Hin) ->. cbn in H3.
    apply in_app_or in Hin as [Hin|[Hin|Hin]]; [|discriminate|].
    + apply in_split in Hin as (u & v & ->).
      apply runs_split in H1 as (sa & sb & Ha & Hb & Hc).
      rewrite classify_exec in Hb.
      assert (Hsa : 13 <= ord sb).
      { destruct sa; try discriminate; cbn in Hb; injection Hb as <-;
          destruct (isSome e); cbn; lia. }
      apply runs_ord in Hc. cbn in Hc. lia.
    + pose proof (runs_past_build p _ _ _ H3 ltac:(cbn; lia) _ Hin) as Hb.
      rewrite classify_exec in Hb. discriminate.
  - intros Hres.
    assert (Hs2 : runs p PNeedBuild t2 = Some s) by (destruct res; congruence).
    destruct (gate_crossing p always not_building (is_kind GoBuild) gate_build_ok
                eq_refl _ _ _ Hs2 eq_refl) as (e & Hin & He).
    { destruct s; try discriminate; reflexivity. }
    destruct (classify p e) as [| | | |k f d m| | |] eqn:E; try discriminate.
    destruct k; try discriminate.
    apply classify_LCmd in E as (out & x & -> & _).
    exists out, x. apply in_or_app. right. now right.
Qed.



Lemma walk_stops R (fn : Visit -> M R (option error)) vs1 : forall v vs2 h t1 x t,
  walk fn vs1 h = (Next None, t1) ->
  fn v (h ++ t1) = (Next (Some x), t) ->
  walk fn (vs1 ++ v :: vs2) h = (Next (Some x), t1 ++ t).
Proof.
  induction vs1 as [|a vs1 IH]; intros v vs2 h t1 x t H1 H2.
  - cbn in H1. injection H1 as <-. rewrite app_nil_r in H2.
    cbn. unfold bind. rewrite H2. cbn. now rewrite app_nil_r.
  - cbn in H1 |- *. unfold bind in *.
    destruct (fn a h) as [[[e|]|r] ta]; cbn in H1; try discriminate.
    destruct (walk fn vs1 (h ++ ta)) as [fl tb] eqn:E.
    injection H1 as -> <-.
    rewrite app_assoc in H2.
    rewrite (IH v vs2 (h ++ ta) tb x t E H2). now rewrite app_assoc.
Qed.

Lemma main_runs_walk env Args h :
  4 <= List.length Args ->
  run (main env Args) h =
  match filepath_Walk (R:=unit) env (nth 1 Args "")
          (walkFunc env (nth 2 Args "") (nth 3 Args "") (confirmBeforeEach_of Args)) h with
  | (Next (Some e), t) => (tt, t ++ [walk_error_log e])
  | (_, t) => (tt, t)
  end.
Proof.
  intros Hlen. unfold main, run, bind.
  assert (E : (List.length Args <? 4)%nat = false) by (apply Nat.ltb_ge; lia).
  rewrite E. cbn [when ret app]. cbv zeta. rewrite app_nil_r.
  destruct (filepath_Walk env _ _ h) as [[[e|]|[]] t];
    cbn [isSome when errMsg]; unfold log_Errorf, emit, return_, ret, walk_error_log;
    cbn [app]; rewrite ?app_nil_r; reflexivity.
Qed.



(** The version inspector as a function of what [os.ReadFile] answers. *)
Lemma getDependencyVersion_run env path dep h :
  run (getDependencyVersion env path dep) h
  = (versionOf (ReadFile env h path) dep, [EvReadFile path (ReadFile env h path)]).
Proof.
  unfold run, getDependencyVersion, bind, os_ReadFile.
  destruct (ReadFile env h path); reflexivity.
Qed.

Lemma shouldUpgrade_run env path dep tgt h :
  run (shouldUpgrade env path dep tgt) h
  = ((versionOf (ReadFile env h path) dep,
      decision (versionOf (ReadFile env h path) dep) tgt),
     [EvReadFile path (ReadFile env h path)]).
Proof.
  unfold run, shouldUpgrade, getDependencyVersion, bind, os_ReadFile.
  destruct (ReadFile env h path); reflexivity.
Qed.

Lemma scanLines_absent lines dep :
  (forall line, In line lines -> strings.Contains line dep = false) ->
  scanLines lines dep = VersionUnknown.
Proof.
  induction lines as [|l lines IH]; intros H; cbn; [reflexivity|].
  rewrite (H l (or_introl eq_refl)). apply IH. intros x Hx. apply H. now right.
Qed.

Lemma scanLines_first before : forall line rest dep,
  (forall l, In l before -> strings.Contains l dep = false) ->
  strings.Contains line dep = true ->
  scanLines (before ++ line :: rest) dep = second_field line.
Proof.
  induction before as [|b before IH]; intros line rest dep Hb Hl; cbn.
  - rewrite Hl. unfold second_field.
    destruct (strings.Fields line) as [|x [|v r]]; reflexivity.
  - rewrite (Hb b (or_introl eq_refl)). apply IH; [|exact Hl].
    intros l Hin. apply Hb. now right.
Qed.

Lemma decision_true cur tgt :
  decision cur tgt = true <->
  cur <> VersionUnknown /\ cur <> VersionNotFound /\ cur <> tgt.
Proof.
  unfold decision. rewrite !andb_true_iff, !negb_true_iff, !String.eqb_neq. tauto.
Qed.

(** Claim C4.  The upgrade decision returns the current version as the
    version inspector gives it, and says "needs upgrade" if and only if that
    version is neither "Unknown" nor "NotFound" and differs from the target
    as a string; when the two are equal it says "no upgrade needed",
    whatever the strings are.  Only equality of strings is used. *)
Theorem upgrade_decision env path dep tgt h :
  let current := fst (run (getDependencyVersion env path dep) h) in
  let result := fst (run (shouldUpgrade env path dep tgt) h) in
  fst result = current
  /\ (snd result = true <->
      current <> VersionUnknown /\ current <> VersionNotFound /\ current <> tgt)
  /\ (current = tgt -> snd result = false).
Proof.
  cbv zeta. rewrite getDependencyVersion_run, shouldUpgrade_run. cbn [fst snd].
  split; [reflexivity|]. split; [apply decision_true|].
  intros E. destruct (decision _ tgt) eqn:D; [|reflexivity].
  apply decision_true in D. tauto.
Qed.





Lemma Contains_prefix s sub : prefix sub s = true -> strings.Contains s sub = true.
Proof. intros H. destruct s; cbn [strings.Contains]; now rewrite H. Qed.

Lemma Contains_append_l a s sub :
  strings.Contains s sub = true -> strings.Contains (a ++ s)%string sub = true.
Proof.
  intros H. induction a as [|c a IH]; [exact H|].
  cbn [String.append strings.Contains].
  rewrite IH. now destruct (prefix sub (String c (a ++ s))).
Qed.





Example sample_inspect :
  fst (run (getDependencyVersion Sample.all_well "r/a/go.mod" Sample.dep) []) = "v1.2.0".
Proof. vm_compute. reflexivity. Qed.

Example sample_all_well_commands :
  map (fun e => match e with EvExec c _ _ => Args c | _ => [] end)
      (filter (fun e => match e with EvExec _ _ _ => true | _ => false end)
              (snd (Sample.visit_a Sample.all_well false)))
  = [["status"; "--porcelain"]; ["rev-parse"; "--abbrev-ref"; "HEAD"]; ["pull"];
     ["get"; "github.com/foo/bar@v1.3.0"]; ["mod"; "tidy"]; ["vet"; "./..."];
     ["test"; "./..."]; ["build"; "-o"; "tmp-app"; "main.go"]; ["./tmp-app"];
     ["add"; "go.mod"; "go.sum"];
     ["commit"; "-m"; "Updated github.com/foo/bar to version v1.3.0"]; ["push"]].
Proof. vm_compute. reflexivity. Qed.

Example sample_vet_fails_result :
  fst (Sample.visit_a Sample.vet_fails false) = Some aborted_see_above.
Proof. vm_compute. reflexivity. Qed.

(** Claims as the specification states them, where the code differs. *)

Lemma nth_split_sample (t : list Event) n :
  n < List.length t ->
  t = firstn n t ++ Sample.event_at n t :: skipn (S n) t.
Proof.
  revert n. induction t as [|e t IH]; intros n Hn; [cbn in Hn; lia|].
  destruct n as [|n]; [reflexivity|]. cbn [firstn skipn app Sample.event_at nth].
  f_equal. apply IH. cbn in Hn. lia.
Qed.



(** Claim C7 on the sample: the entry point exists and the build runs. *)
Lemma build_unless_stat_says_not_exist_witness :
  let t := snd (Sample.visit_a Sample.all_well false) in
  t = firstn 16 t ++ EvStat "r/a/main.go" StatOk :: skipn 17 t
  /\ ((exists out e,
          In (EvExec (pipeline_cmd (filepath_Dir Sample.all_well "r/a/go.mod")
                                   Sample.dep Sample.target GoBuild) out e)
             (firstn 16 t ++ EvStat "r/a/main.go" StatOk :: skipn 17 t))
      <-> StatOk <> StatErrNotExist).
Proof.
  cbv zeta.
  assert (H1 : snd (run (walkFn Sample.all_well Sample.dep Sample.target false
                           "r/a/go.mod" false "go.mod" None) [])
               = firstn 16 (snd (Sample.visit_a Sample.all_well false))
                 ++ EvStat "r/a/main.go" StatOk
                 :: skipn 17 (snd (Sample.visit_a Sample.all_well false)))
    by (vm_compute; reflexivity).
  split; [exact H1|].
  exact (proj2 (build_unless_stat_says_not_exist _ _ _ _ _ _ _ _ _ _ _ _ _ H1)).
Defined.

(** Claim C7 as stated fails: [os.Stat] fails with another error than
    "does not exist", so the file is not known to exist, and the build
    runs. *)
Lemma build_iff_entry_point_exists_fails : ~ build_iff_entry_point_exists.
Proof.
  intros H.
  assert (H1 : snd (run (walkFn Sample.stat_fails Sample.dep Sample.target false
                           "r/a/go.mod" false "go.mod" None) [])
               = firstn 16 (snd (Sample.visit_a Sample.stat_fails false))
                 ++ EvStat "r/a/main.go" StatErrOther
                 :: skipn 17 (snd (Sample.visit_a Sample.stat_fails false)))
    by (vm_compute; reflexivity).
  specialize (H _ _ _ _ _ _ _ _ _ _ _ _ _ H1).
  assert (Hb : StatErrOther = StatOk); [|discriminate].
  apply H. exists "", None. vm_compute. tauto.
Qed.





(** Claim C4 on the sample: an upgrade, the same version, a downgrade. *)
Lemma upgrade_decision_witness :
  fst (run (shouldUpgrade Sample.all_well "r/a/go.mod" Sample.dep Sample.target) [])
  = ("v1.2.0", true)
  /\ snd (fst (run (shouldUpgrade Sample.all_well "r/a/go.mod" Sample.dep "v1.2.0") []))
     = false
  /\ snd (fst (run (shouldUpgrade Sample.all_well "r/a/go.mod" Sample.dep "v1.0.0") []))
     = true.
Proof.
  destruct (upgrade_decision Sample.all_well "r/a/go.mod" Sample.dep Sample.target [])
    as (A1 & A2 & _).
  destruct (upgrade_decision Sample.all_well "r/a/go.mod" Sample.dep "v1.2.0" [])
    as (_ & _ & B3).
  destruct (upgrade_decision Sample.all_well "r/a/go.mod" Sample.dep "v1.0.0" [])
    as (_ & C2 & _).
  split; [|split].
  - apply injective_projections; [exact A1|].
    apply A2. vm_compute. repeat split; discriminate.
  - apply B3. vm_compute. reflexivity.
  - apply C2. vm_compute. repeat split; discriminate.
Defined.









(** * Further properties of the code *)

Lemma kind_index_inj j k : kind_index j = kind_index k -> j = k.
Proof. destruct j, k; cbn; congruence. Qed.

Lemma check_requires_ok : holds_everywhere check_requires = true.
Proof. vm_compute. reflexivity. Qed.

Lemma gates_past_ok :
  forallb (fun j => holds_everywhere (check_gate always (past j) (is_success j)))
          (GoBuild :: on_every_way) = true.
Proof. vm_compute. reflexivity. Qed.

Lemma check_next_ok : holds_everywhere check_next = true.
Proof. vm_compute. reflexivity. Qed.

Lemma check_goes_on_ok : holds_everywhere check_goes_on = true.
Proof. vm_compute. reflexivity. Qed.

Section Order.

Variable p : Project.

(** A run from a state in which the walk function does not return has a
    first event that is not a log message. *)
Lemma first_event t : forall s s',
  runs p s t = Some s' -> final s = false -> final s' = true ->
  exists logs e rest s1,
    t = logs ++ e :: rest
    /\ (forall x, In x logs -> exists lvl msg, x = EvLog lvl msg)
    /\ classify p e <> LLog
    /\ delta (p_confirm p) s (classify p e) = Some s1.
Proof.
  induction t as [|x t IH]; intros s s' H Hs Hs'; cbn in H.
  - injection H as <-. congruence.
  - destruct (delta _ s _) as [s1|] eqn:E; [|discriminate].
    destruct (classify p x) eqn:C;
      try (exists [], x, t, s1; rewrite C; repeat split;
           [intros ? [] | discriminate | exact E]).
    assert (s1 = s) by (destruct s; cbn in E; congruence). subst s1.
    destruct (IH _ _ H Hs Hs') as (logs & e & rest & s2 & -> & Hl & Hc & Hd).
    exists (x :: logs), e, rest, s2. repeat split; auto.
    intros y [<-|Hy]; [now apply (classify_LLog p) | auto].
Qed.

Lemma classify_LStat e res :
  classify p e = LStat res -> e = EvStat (p_main p) res.
Proof.
  destruct e as [path r|path r|c out err|ops|text err|lvl msg]; cbn [classify].
  - destruct (String.eqb path _); easy.
  - destruct (String.eqb path _) eqn:E; [|easy].
    apply String.eqb_eq in E as ->. now intros [= <-].
  - destruct (classify_cmd p c); easy.
  - destruct ops as [|[| | |] [|[| | |] [|]]]; easy.
  - easy.
  - easy.
Qed.

Lemma success_label k out err :
  succeeded k out err = true ->
  is_success k (LCmd k (isSome err) (0 <? String.length out)%nat
                     (String.eqb (strings.TrimSpace out) "master")) = true.
Proof.
  unfold succeeded, is_success. rewrite Nat.eqb_refl.
  destruct k; cbn; try easy.
  intros H. apply String.eqb_eq in H as ->. reflexivity.
Qed.

Lemma is_success_inv j e :
  is_success j (classify p e) = true ->
  exists out err, e = EvExec (cmd_of p j) out err /\ succeeded j out err = true.
Proof.
  destruct (classify p e) as [| | | |k f d m| | |] eqn:C; try discriminate.
  cbn. intros H. apply andb_true_iff in H as [H1 H2].
  apply Nat.eqb_eq, kind_index_inj in H1 as <-.
  apply classify_LCmd in C as (out & err & -> & -> & ->).
  exists out, err. split; [reflexivity|].
  unfold succeeded. destruct j; try exact H2.
  destruct out; [reflexivity | discriminate].
Qed.

(** The event after which the machine went on, and the event that it took
    next. *)
Lemma next_label s l s1 l' s2 :
  delta (p_confirm p) s l = Some s1 -> stopped s1 = false ->
  delta (p_confirm p) s1 l' = Some s2 ->
  match l, l' with
  | _, LLog => true
  | LCmd GitRevParse _ _ m, LCmd k' _ _ _ =>
      Nat.eqb (kind_index k') (kind_index (if m then GitPull else GitCheckout))
  | LCmd GoTest _ _ _, LStat _ => true
  | LCmd GoTest _ _ _, _ => false
  | LCmd GitPush _ _ _, _ => false
  | LCmd k _ _ _, LCmd k' _ _ _ =>
      match next_kind k "" with
      | Some n => Nat.eqb (kind_index k') (kind_index n)
      | None => false
      end
  | LStat res, LCmd k' _ _ _ => Nat.eqb (kind_index k') (kind_index (after_stat res))
  | LCmd _ _ _ _, _ => false
  | LStat _, _ => false
  | _, _ => true
  end = true.
Proof.
  intros H1 Hs H2.
  pose proof (holds_everywhere_spec _ check_next_ok (p_confirm p) s l) as X.
  unfold check_next in X. rewrite H1, Hs in X. cbn [negb implb] in X.
  rewrite forallb_forall in X. specialize (X l' (all_labels_complete l')).
  rewrite H2 in X. exact X.
Qed.

Lemma goes_on s l s1 :
  delta (p_confirm p) s l = Some s1 ->
  match l with
  | LCmd GitPush _ _ _ => True
  | LCmd k _ _ _ => is_success k l = true -> stopped s1 = false /\ final s1 = false
  | LStat _ => stopped s1 = false /\ final s1 = false
  | _ => True
  end.
Proof.
  intros H1.
  pose proof (holds_everywhere_spec _ check_goes_on_ok (p_confirm p) s l) as X.
  unfold check_goes_on in X. rewrite H1 in X.
  destruct l as [| | | |k f d m|res| |]; try exact I.
  - destruct k; try exact I; intros Hk; rewrite Hk in X; cbn [implb] in X;
      apply andb_true_iff in X as [X1 X2];
      apply negb_true_iff in X1; apply negb_true_iff in X2; auto.
  - apply andb_true_iff in X as [X1 X2].
    apply negb_true_iff in X1. apply negb_true_iff in X2. auto.
Qed.

Lemma requires_past s k f d m s1 j :
  delta (p_confirm p) s (LCmd k f d m) = Some s1 -> In j (requires k) ->
  past j s = true.
Proof.
  intros H1 Hj.
  pose proof (holds_everywhere_spec _ check_requires_ok (p_confirm p) s (LCmd k f d m)) as X.
  unfold check_requires in X. rewrite H1 in X.
  rewrite forallb_forall in X. auto.
Qed.

Lemma requires_gate j k : In j (requires k) -> In j (GoBuild :: on_every_way).
Proof.
  unfold requires. intros H. apply in_app_or in H as [H|H].
  - apply filter_In in H as [H _]. now right.
  - destruct k; try destruct H as [<-|[]]; try contradiction. now left.
Qed.

Lemma past_crossing j t s :
  In j (GoBuild :: on_every_way) ->
  runs p PStart t = Some s -> past j s = true ->
  exists out err, In (EvExec (cmd_of p j) out err) t /\ succeeded j out err = true.
Proof.
  intros Hj H Hs.
  pose proof gates_past_ok as G. rewrite forallb_forall in G. specialize (G j Hj).
  destruct (gate_crossing p always (past j) (is_success j) G eq_refl _ _ _ H) as (e & Hin & He);
    [destruct j; reflexivity | exact Hs |].
  apply is_success_inv in He as (out & err & -> & He). eauto.
Qed.

End Order.

(** Property X2.  After a command that succeeded the walk function runs
    the next command of the pipeline, with nothing but log messages in
    between: after a clean [git status] comes [git rev-parse]; after it
    [git pull] when the trimmed output is "master" and [git checkout master]
    otherwise; and so on up to [git push].  After [go test] comes [os.Stat]
    of [main.go], and after [os.Stat] comes [go build], or [git add] when
    the file does not exist. *)
Theorem pipeline_goes_on env dep tgt c path isdir name err h :
  let t := snd (run (walkFn env dep tgt c path isdir name err) h) in
  let cmd := pipeline_cmd (filepath_Dir env path) dep tgt in
  (forall t1 k out e t2 k',
      t = t1 ++ EvExec (cmd k) out e :: t2 ->
      succeeded k out e = true ->
      next_kind k out = Some k' ->
      exists logs out' e' rest,
        t2 = logs ++ EvExec (cmd k') out' e' :: rest
        /\ forall x, In x logs -> exists lvl msg, x = EvLog lvl msg)
  /\ (forall t1 out t2,
         t = t1 ++ EvExec (cmd GoTest) out None :: t2 ->
         exists logs res rest,
           t2 = logs ++ EvStat (path_Join env (filepath_Dir env path) "main.go") res :: rest
           /\ forall x, In x logs -> exists lvl msg, x = EvLog lvl msg)
  /\ (forall t1 sp res t2,
         t = t1 ++ EvStat sp res :: t2 ->
         exists logs out' e' rest,
           t2 = logs ++ EvExec (cmd (after_stat res)) out' e' :: rest
           /\ forall x, In x logs -> exists lvl msg, x = EvLog lvl msg).
Proof.
  cbv zeta.
  destruct (walkFn_accepted env dep tgt c path isdir name err h) as (s & Hr & Hf & _).
  set (p := project_of env dep tgt c path) in *.
  change (pipeline_cmd (filepath_Dir env path) dep tgt) with (cmd_of p).
  split; [|split].
  - intros t1 k out e t2 k' Ht Hk Hn.
    rewrite Ht in Hr. apply runs_split in Hr as (s1 & s2 & H1 & H2 & H3).
    rewrite classify_exec in H2.
    pose proof (goes_on p _ _ _ H2) as Hg. cbn beta iota in Hg.
    assert (Hs2 : stopped s2 = false /\ final s2 = false).
    { destruct k; try discriminate; apply Hg; now apply success_label. }
    destruct Hs2 as [Hst Hnf].
    destruct (first_event p _ _ _ H3 Hnf Hf) as (logs & x & rest & s3 & -> & Hl & Hc & Hd).
    pose proof (next_label p _ _ _ _ _ H2 Hst Hd) as N.
    destruct (classify p x) as [| | | |k2 f2 d2 m2| | |] eqn:C; try congruence;
      try (destruct k; discriminate).
    apply classify_LCmd in C as (out' & e' & -> & _).
    assert (k2 = k') as ->.
    { destruct k; cbn [next_kind] in Hn, N; cbv beta iota in N; try discriminate;
        injection Hn as <-; now apply Nat.eqb_eq, kind_index_inj in N. }
    exists logs, out', e', rest. auto.
  - intros t1 out t2 Ht.
    rewrite Ht in Hr. apply runs_split in Hr as (s1 & s2 & H1 & H2 & H3).
    rewrite classify_exec in H2.
    pose proof (goes_on p _ _ _ H2) as Hg. cbn beta iota in Hg.
    destruct (Hg eq_refl) as [Hst Hnf].
    destruct (first_event p _ _ _ H3 Hnf Hf) as (logs & x & rest & s3 & -> & Hl & Hc & Hd).
    pose proof (next_label p _ _ _ _ _ H2 Hst Hd) as N.
    destruct (classify p x) as [| | | | |res| |] eqn:C; try congruence; try discriminate.
    apply classify_LStat in C as ->.
    exists logs, res, rest. auto.
  - intros t1 sp res t2 Ht.
    rewrite Ht in Hr. apply runs_split in Hr as (s1 & s2 & H1 & H2 & H3).
    destruct (classify_Stat p sp res _ eq_refl) as [Hsp Hl0].
    { intros E. rewrite E in H2. now apply delta_not_other in H2. }
    rewrite Hl0 in H2.
    pose proof (goes_on p _ _ _ H2) as Hg. cbn beta iota in Hg.
    destruct Hg as [Hst Hnf].
    destruct (first_event p _ _ _ H3 Hnf Hf) as (logs & x & rest & s3 & -> & Hl & Hc & Hd).
    pose proof (next_label p _ _ _ _ _ H2 Hst Hd) as N.
    destruct (classify p x) as [| | | |k2 f2 d2 m2| | |] eqn:C; try congruence;
      try discriminate.
    apply classify_LCmd in C as (out' & e' & -> & _).
    apply Nat.eqb_eq, kind_index_inj in N as ->.
    exists logs, out', e', rest. auto.
Qed.

Lemma check_failure_ok : holds_everywhere check_failure = true.
Proof. vm_compute. reflexivity. Qed.

Lemma gate_aborting_ok :
  holds_everywhere (check_gate always aborting is_failed_check) = true.
Proof. vm_compute. reflexivity. Qed.

Lemma failed_command_result env dep tgt c path isdir name err h t1 k out x t2 :
  snd (run (walkFn env dep tgt c path isdir name err) h)
  = t1 ++ EvExec (pipeline_cmd (filepath_Dir env path) dep tgt k) out (Some x) :: t2 ->
  k <> GitStatus ->
  fst (run (walkFn env dep tgt c path isdir name err) h) = abort_message k.
Proof.
  intros Ht Hk.
  destruct (walkFn_accepted env dep tgt c path isdir name err h) as (s & Hr & _ & Hres).
  rewrite Ht in Hr. apply runs_split in Hr as (s1 & s2 & H1 & H2 & H3).
  set (p := project_of env dep tgt c path) in *.
  change (pipeline_cmd (filepath_Dir env path) dep tgt k) with (cmd_of p k) in H2.
  rewrite classify_exec in H2. cbn [isSome] in H2.
  match type of H2 with delta _ _ ?l = _ =>
    pose proof (holds_everywhere_spec _ check_failure_ok (p_confirm p) s1 l) as X
  end.
  unfold check_failure in X. rewrite H2 in X.
  assert (Hst : stopped s2 = true).
  { destruct k; try congruence; destruct s2; try discriminate; reflexivity. }
  destruct (runs_stopped p _ _ _ H3 Hst) as [-> Hall].
  destruct k; try congruence; destruct s2 as [| | | | | | | | | | | | | | | | | | |j|j];
    try discriminate; destruct j; try discriminate; exact Hres.
Qed.

(** Property X5.  The walk function returns an error in two cases only:
    [filepath.Walk] handed that error over, or [go vet], [go test],
    [go build] or [rm ./tmp-app] failed in this visit, and the error is the
    abort error of that command.  No failure of another step stops the
    walk. *)
Theorem walk_function_error_cases env dep tgt c path isdir name err h msg :
  fst (run (walkFn env dep tgt c path isdir name err) h) = Some msg ->
  err = Some msg
  \/ exists k out x,
       In (EvExec (pipeline_cmd (filepath_Dir env path) dep tgt k) out (Some x))
          (snd (run (walkFn env dep tgt c path isdir name err) h))
       /\ abort_message k = Some msg.
Proof.
  intros Hm.
  destruct (walkFn_accepted env dep tgt c path isdir name err h) as (s & Hr & Hf & Hres).
  set (p := project_of env dep tgt c path) in *.
  rewrite Hm in Hres.
  destruct (aborting s) eqn:Ha.
  - right.
    destruct (gate_crossing p always aborting is_failed_check gate_aborting_ok eq_refl
                _ _ _ Hr eq_refl Ha) as (e & Hin & He).
    destruct (classify p e) as [| | | |k [] d m| | |] eqn:C; try discriminate.
    apply classify_LCmd in C as (out & x & -> & Hx & _).
    destruct x as [x|]; [|discriminate]. exists k, out, x. split; [exact Hin|].
    apply in_split in Hin as (t1 & t2 & Ht).
    rewrite Ht in Hr. apply runs_split in Hr as (s1 & s2 & H1 & H2 & H3).
    rewrite classify_exec in H2. cbn [isSome] in H2.
    match type of H2 with delta _ _ ?l = _ =>
      pose proof (holds_everywhere_spec _ check_failure_ok (p_confirm p) s1 l) as X
    end.
    unfold check_failure in X. rewrite H2 in X.
    assert (Hst : stopped s2 = true).
    { destruct k; try discriminate; destruct s2; try discriminate; reflexivity. }
    destruct (runs_stopped p _ _ _ H3 Hst) as [-> _].
    destruct k; try discriminate;
      destruct s2 as [| | | | | | | | | | | | | | | | | | |j|j];
      try discriminate; destruct j; try discriminate; cbn in Hres |- *; congruence.
  - destruct s; try discriminate; cbn in Hres; try discriminate. left. congruence.
Qed.

(** Property X4.  A command is run only after the commands before it in
    the pipeline have succeeded in the same visit: [git commit] and
    [git push], for one, only after [go get], [go mod tidy], [go vet] and
    [go test] returned no error, and [rm ./tmp-app] only after [go build]
    did.  ([git checkout], [go build] and [rm] are not on every way.) *)
Theorem commands_need_their_predecessors
  env dep tgt c path isdir name err h t1 k out e t2 j :
  snd (run (walkFn env dep tgt c path isdir name err) h)
  = t1 ++ EvExec (pipeline_cmd (filepath_Dir env path) dep tgt k) out e :: t2 ->
  In j (requires k) ->
  exists out0 e0,
    In (EvExec (pipeline_cmd (filepath_Dir env path) dep tgt j) out0 e0) t1
    /\ succeeded j out0 e0 = true.
Proof.
  intros Ht Hj.
  destruct (walkFn_accepted env dep tgt c path isdir name err h) as (s & Hr & _).
  rewrite Ht in Hr. apply runs_split in Hr as (s1 & s2 & H1 & H2 & H3).
  set (p := project_of env dep tgt c path) in *.
  change (pipeline_cmd (filepath_Dir env path) dep tgt k) with (cmd_of p k) in H2.
  rewrite classify_exec in H2.
  pose proof (requires_past p _ _ _ _ _ _ j H2 Hj) as Hp.
  exact (past_crossing p j t1 s1 (requires_gate j k Hj) H1 Hp).
Qed.

(** Property X6.  A visit touches nothing but its project: the only file
    it reads is the manifest it was called for, the only file it asks
    [os.Stat] about is [main.go] beside it, and every command it runs is one
    of the thirteen command lines of the pipeline, run in the directory of
    the manifest. *)
Theorem only_known_events env dep tgt c path isdir name err h e :
  In e (snd (run (walkFn env dep tgt c path isdir name err) h)) ->
  match e with
  | EvReadFile f _ => f = path
  | EvStat f _ => f = path_Join env (filepath_Dir env path) "main.go"
  | EvExec cmd _ _ =>
      Dir cmd = filepath_Dir env path
      /\ exists k, cmd = pipeline_cmd (filepath_Dir env path) dep tgt k
  | _ => True
  end.
Proof.
  intros Hin.
  destruct (walkFn_accepted env dep tgt c path isdir name err h) as (s & Hr & _).
  destruct (runs_In _ _ _ _ _ Hr Hin) as (s3 & s4 & Hd & _).
  set (p := project_of env dep tgt c path) in *.
  destruct e as [f r|f r|cmd out x|ops|tx ex|lvl msg]; try exact I.
  - cbn [classify] in Hd. destruct (String.eqb f _) eqn:E.
    + now apply String.eqb_eq in E.
    + now apply delta_not_other in Hd.
  - cbn [classify] in Hd. destruct (String.eqb f _) eqn:E.
    + now apply String.eqb_eq in E.
    + now apply delta_not_other in Hd.
  - cbn [classify] in Hd. destruct (classify_cmd p cmd) as [k|] eqn:E.
    + apply classify_cmd_Some in E as ->. split; [now destruct k | now exists k].
    + now apply delta_not_other in Hd.
Qed.


Lemma Run_bind {R A B} (m : M R A) (f : A -> M R B) h Q :
  Run m h (fun fl t1 =>
    match fl with
    | Next a => Run (f a) (h ++ t1) (fun x t2 => Q x (t1 ++ t2))
    | Return r => Q (Return r) t1
    end) ->
  Run (bind m f) h Q.
Proof.
  unfold Run, bind. destruct (m h) as [[a|r] t1]; cbn [fst snd]; [|auto].
  destruct (f a (h ++ t1)) as [x t2]. auto.
Qed.

Lemma Run_ret {R A} (a : A) h (Q : Flow R A -> list Event -> Prop) :
  Q (Next a) [] -> Run (ret a) h Q.
Proof. auto. Qed.

Lemma Run_return {R A} (r : R) h (Q : Flow R A -> list Event -> Prop) :
  Q (Return r) [] -> Run (return_ r) h Q.
Proof. auto. Qed.

Lemma Run_emit {R} e h (Q : Flow R unit -> list Event -> Prop) :
  Q (Next tt) [e] -> Run (emit e) h Q.
Proof. auto. Qed.

Lemma Run_func {A} (body : M A A) h (P : A * list Event -> Prop) :
  Run body h (fun fl t => match fl with Next a | Return a => P (a, t) end) ->
  P (run (func body) h).
Proof.
  unfold Run, run, func. destruct (body h) as [[a|a] t]; auto.
Qed.

Lemma Run_nil {R A} (m : M R A) h Q : Run m h Q -> Run m (h ++ []) Q.
Proof. now rewrite app_nil_r. Qed.

Lemma Run_exec {R} env c h (Q : Flow R (string * option error) -> list Event -> Prop) :
  (forall out err,
      CombinedOutput env h c = (out, err) -> Q (Next (out, err)) [EvExec c out err]) ->
  Run (executeCommand env c) h Q.
Proof.
  intros H. unfold Run, executeCommand.
  destruct (CombinedOutput env h c) as [out err]. now apply H.
Qed.

Lemma Run_shouldUpgrade {R} env path dep tgt h
  (Q : Flow R (string * bool) -> list Event -> Prop) :
  Q (Next (versionOf (ReadFile env h path) dep,
           decision (versionOf (ReadFile env h path) dep) tgt))
    [EvReadFile path (ReadFile env h path)] ->
  Run (shouldUpgrade env path dep tgt) h Q.
Proof.
  unfold Run, shouldUpgrade, getDependencyVersion, bind, os_ReadFile.
  destruct (ReadFile env h path); auto.
Qed.

Lemma Run_Stat {R} env path h (Q : Flow R StatResult -> list Event -> Prop) :
  (forall res, Q (Next res) [EvStat path res]) ->
  Run (os_Stat env path) h Q.
Proof. intros H. unfold Run, os_Stat. destruct (Stat env h path); apply H. Qed.

Lemma Run_ReadString {R} env h (Q : Flow R (string * option error) -> list Event -> Prop) :
  (forall text err,
      ReadString env h = (text, err) -> Q (Next (text, err)) [EvReadString text err]) ->
  Run (reader_ReadString env) h Q.
Proof.
  intros H. unfold Run, reader_ReadString. destruct (ReadString env h). now apply H.
Qed.

Ltac run_step :=
  lazymatch goal with
  | |- Run _ (_ ++ []) _ => apply Run_nil
  | |- Run (bind _ _) _ _ => apply Run_bind
  | |- Run (ret _) _ _ => apply Run_ret
  | |- Run (return_ _) _ _ => apply Run_return
  | |- Run (emit _) _ _ => apply Run_emit
  | |- Run (shouldUpgrade _ _ _ _) _ _ => apply Run_shouldUpgrade
  | |- Run (executeCommand _ _) _ _ => fail
  | |- Run (os_Stat _ _) _ _ => fail
  | |- Run (reader_ReadString _) _ _ => fail
  | |- Run (when true _) _ _ => unfold when at 1
  | |- Run (when false _) _ _ => unfold when at 1
  | |- Run (when ?c _) _ _ =>
      tryif has_var c
      then (let c' := eval cbv beta iota delta [isSome wrapped negb andb fst snd] in c in
            progress (change c with c'))
      else (let v := eval vm_compute in c in change c with v)
  | |- Run ?m _ _ => let f := head_of m in progress (unfold f at 1)
  | |- _ => progress (cbv beta iota)
  end.

(** A visit that is no manifest, and a visit with an error. *)
Lemma walkFn_other R env dep tgt c path isdir name h :
  negb isdir && String.eqb name "go.mod" = false ->
  walkFn (R:=R) env dep tgt c path isdir name None h = (Next None, []).
Proof.
  intros H. unfold walkFn, func, bind. cbn [isSome when ret].
  rewrite H. reflexivity.
Qed.

Lemma walkFn_error R env dep tgt c path isdir name x h :
  walkFn (R:=R) env dep tgt c path isdir name (Some x) h = (Next (Some x), []).
Proof. reflexivity. Qed.

Lemma walk_nothing R (fn : Visit -> M R (option error)) vs : forall h,
  (forall v h', In v vs -> fn v h' = (Next None, [])) ->
  walk fn vs h = (Next None, []).
Proof.
  induction vs as [|v vs IH]; intros h H; cbn; [reflexivity|].
  unfold bind. rewrite (H v h (or_introl eq_refl)).
  rewrite IH; [reflexivity|]. intros w h' Hw. apply H. now right.
Qed.

(** Property X10.  When [filepath.Walk] meets no error and no file named
    "go.mod" under the root (directories named "go.mod" do not count),
    [main] does nothing at all: no file is read, no command is run, nothing
    is logged. *)
Theorem tree_without_manifest env Args h :
  4 <= List.length Args ->
  (forall v, In v (Walk_visits env h (nth 1 Args "")) ->
             v_err v = None /\ (v_IsDir v = true \/ v_Name v <> "go.mod")) ->
  run (main env Args) h = (tt, []).
Proof.
  intros Hlen Hv. rewrite (main_runs_walk env Args h Hlen). unfold filepath_Walk.
  rewrite walk_nothing; [reflexivity|].
  intros v h' Hin. destruct (Hv v Hin) as [He Hn]. unfold walkFunc. rewrite He.
  apply walkFn_other. destruct Hn as [->|Hn]; [reflexivity|].
  apply String.eqb_neq in Hn. rewrite Hn. apply andb_false_r.
Qed.

(** Property X11.  When [filepath.Walk] hands an error to the walk
    function, the walk function returns it at once, for a manifest too; the
    walk stops there, and [main] logs "Error walking the path" with that
    error after the events of the visits before. *)
Theorem walk_error_stops_main env Args h vs1 v vs2 t1 x :
  4 <= List.length Args ->
  Walk_visits env h (nth 1 Args "") = vs1 ++ v :: vs2 ->
  walk (R:=unit)
       (walkFunc env (nth 2 Args "") (nth 3 Args "") (confirmBeforeEach_of Args))
       vs1 h = (Next None, t1) ->
  v_err v = Some x ->
  run (walkFunc env (nth 2 Args "") (nth 3 Args "") (confirmBeforeEach_of Args) v)
      (h ++ t1) = (Some x, [])
  /\ run (main env Args) h = (tt, t1 ++ [walk_error_log x]).
Proof.
  intros Hlen Hv H1 Hx. split.
  - unfold walkFunc. rewrite Hx. reflexivity.
  - rewrite (main_runs_walk env Args h Hlen). unfold filepath_Walk. rewrite Hv.
    rewrite (walk_stops unit _ vs1 v vs2 h t1 x []); [now rewrite app_nil_r | exact H1 |].
    unfold walkFunc. rewrite Hx. reflexivity.
Qed.

(** Property X7.  When the upgrade decision of a manifest is "no upgrade"
    (the version is the target, or "Unknown", or "NotFound"), the visit
    reads the manifest, logs at debug level that no upgrade is needed, and
    returns [nil]: no prompt, no command. *)
Theorem up_to_date_project_is_left_alone env dep tgt c path h :
  decision (versionOf (ReadFile env h path) dep) tgt = false ->
  run (walkFn env dep tgt c path false "go.mod" None) h
  = (None,
     [EvReadFile path (ReadFile env h path);
      EvLog Debug (Sprintf ("Upgrade not needed for %s" ++ strings.nl)%string
                           [Str (filepath_Dir env path)])]).
Proof.
  intros Hd. unfold walkFn. apply Run_func.
  repeat run_step. rewrite Hd. repeat run_step. reflexivity.
Qed.

(** Property X8.  With confirmation on, when the line that was read is not
    "y" or "yes" (with or without its line feed) or when reading failed,
    the visit consists of the read of the manifest, the prompt, the read of
    the answer, the printed read error if there was one, and the debug log
    "Skipping"; it returns [nil] and runs no command. *)
Theorem declined_project_is_left_alone env dep tgt path h text err :
  let read := EvReadFile path (ReadFile env h path) in
  let prompt :=
    EvPrintln [Yellow (Cat (Str ">>> ")
                           (Sprintf "Continue with %s?" [Str (filepath_Dir env path)]))] in
  decision (versionOf (ReadFile env h path) dep) tgt = true ->
  ReadString env (h ++ [read; prompt]) = (text, err) ->
  (err = None ->
   strings.TrimSuffix text strings.nl <> "y"
   /\ strings.TrimSuffix text strings.nl <> "yes") ->
  run (walkFn env dep tgt true path false "go.mod" None) h
  = (None,
     [read; prompt; EvReadString text err]
     ++ match err with
        | Some e => [EvPrintln [Str "An error occurred:"; Str e]]
        | None => []
        end
     ++ [EvLog Debug (Sprintf ("Skipping %s" ++ strings.nl)%string
                              [Str (filepath_Dir env path)])]).
Proof.
  cbv zeta. intros Hd Hr Hno. unfold walkFn. apply Run_func.
  repeat run_step. rewrite Hd. repeat run_step.
  apply Run_ReadString. rewrite <- app_assoc. cbn [app]. rewrite Hr.
  intros ? ? [= <- <-]. repeat run_step.
  destruct err as [e|].
  - repeat run_step. reflexivity.
  - destruct (Hno eq_refl) as [H1 H2].
    apply String.eqb_neq in H1, H2. repeat run_step. rewrite H1, H2.
    repeat run_step. reflexivity.
Qed.

(** Property X17.  When the project needs the upgrade, confirmation is off
    and [git status --porcelain] prints something (with or without an
    error), the visit consists of the read of the manifest, the log of the
    update with the version found and the target, the log of the check, the
    [git status] itself and the warning of [printIndentedWarning] that the
    project is skipped; it returns [nil]. *)
Theorem dirty_project_is_left_alone env dep tgt path h out err :
  let dir := filepath_Dir env path in
  let name := filepath_Base env dir in
  let before :=
    [EvReadFile path (ReadFile env h path);
     EvLog Info (Sprintf "Updating Project: %s from version %s to %s"
                         [Str name; Str (versionOf (ReadFile env h path) dep); Str tgt]);
     EvLog Info (Sprintf "%s: %s"
                         [Str name; Sprintf "Checking for uncommitted changes..." []])] in
  decision (versionOf (ReadFile env h path) dep) tgt = true ->
  CombinedOutput env (h ++ before) (Command "git" ["status"; "--porcelain"] dir)
  = (out, err) ->
  out <> "" ->
  run (walkFn env dep tgt false path false "go.mod" None) h
  = (None,
     before
     ++ [EvExec (Command "git" ["status"; "--porcelain"] dir) out err;
         EvLog Warn
           (Sprintf "%s: %s"
              [Str name;
               Sprintf "Warning: Project %s has uncommitted changes. Skipping update."
                       [Str name]])]).
Proof.
  cbv zeta. intros Hd Hc Hout. unfold walkFn. apply Run_func.
  repeat run_step. rewrite Hd. repeat run_step.
  apply Run_exec. rewrite <- !app_assoc. cbn [app]. rewrite Hc.
  intros ? ? [= <- <-]. repeat run_step.
  destruct out as [|a out]; [congruence|]. cbn [String.length Nat.ltb Nat.leb].
  repeat run_step. reflexivity.
Qed.

Section Success.

Variable env : Env.
Variables dep tgt path : string.

Hypothesis all_succeed : forall h c, snd (CombinedOutput env h c) = None.
Hypothesis clean_tree :
  forall h, fst (CombinedOutput env h
                   (pipeline_cmd (filepath_Dir env path) dep tgt GitStatus)) = "".

Lemma Run_exec_ok {R} c h (Q : Flow R (string * option error) -> list Event -> Prop) :
  (forall out, Q (Next (out, None)) [EvExec c out None]) ->
  Run (executeCommand env c) h Q.
Proof.
  intros H. apply Run_exec. intros out err E.
  pose proof (all_succeed h c) as X. rewrite E in X. cbn in X. subst err. apply H.
Qed.

Lemma Run_status {R} h (Q : Flow R (string * option error) -> list Event -> Prop) :
  Q (Next ("", None))
    [EvExec (pipeline_cmd (filepath_Dir env path) dep tgt GitStatus) "" None] ->
  Run (executeCommand env (Command "git" ["status"; "--porcelain"] (filepath_Dir env path)))
      h Q.
Proof.
  intros H. apply Run_exec. intros out err E.
  pose proof (all_succeed h (pipeline_cmd (filepath_Dir env path) dep tgt GitStatus)) as X.
  pose proof (clean_tree h) as Y. cbn [pipeline_cmd] in X, Y.
  rewrite E in X, Y. cbn in X, Y. subst. exact H.
Qed.

Ltac ok_step :=
  lazymatch goal with
  | |- Run (executeCommand _ (Command "git" ("status" :: _) _)) _ _ => apply Run_status
  | |- Run (executeCommand _ _) _ _ => apply Run_exec_ok; intros ?out
  | |- Run (os_Stat _ _) _ _ => apply Run_Stat; intros [| |]
  | |- Run (when (if String.eqb ?a ?b then _ else _) _) _ _ => destruct (String.eqb a b)
  | |- _ => run_step
  end.

(** Property X1.  When the project needs the upgrade, confirmation is off,
    every command succeeds and [git status] prints nothing, the visit of a
    manifest returns [nil] and runs exactly the commands of the pipeline in
    their order: status, rev-parse, (checkout master), pull, go get, go mod
    tidy, go vet, go test, (go build, rm ./tmp-app), git add, git commit,
    git push.  Its last event is the log of [printIndentedInfo("Done
    updating %s", projectName)], in which the project name stands where the
    format is expected. *)
Theorem successful_update_runs_the_full_pipeline h :
  decision (versionOf (ReadFile env h path) dep) tgt = true ->
  exists checkout build,
    fst (run (walkFn env dep tgt false path false "go.mod" None) h) = None
    /\ commands (snd (run (walkFn env dep tgt false path false "go.mod" None) h))
       = map (pipeline_cmd (filepath_Dir env path) dep tgt) (full_pipeline checkout build)
    /\ last (snd (run (walkFn env dep tgt false path false "go.mod" None) h)) (EvPrintln [])
       = EvLog Info (Sprintf "%s: %s"
                       [Str "Done updating %s";
                        Sprintf (filepath_Base env (filepath_Dir env path)) []]).
Proof.
  intros Hd. unfold walkFn.
  apply (Run_func _ _ (fun r => exists checkout build,
                         fst r = None /\ commands (snd r) = _ /\ last (snd r) _ = _)).
  repeat run_step. rewrite Hd. repeat ok_step.
  all: cbn [fst snd].
  all: first [ exists false, false; repeat split; reflexivity
             | exists false, true; repeat split; reflexivity
             | exists true, false; repeat split; reflexivity
             | exists true, true; repeat split; reflexivity ].
Qed.

End Success.


Lemma length_append a b :
  String.length (a ++ b)%string = String.length a + String.length b.
Proof. induction a as [|c a IH]; cbn; [reflexivity | now rewrite IH]. Qed.

Lemma substring_skip a : forall m b,
  substring (String.length a) m (a ++ b)%string = substring 0 m b.
Proof. induction a as [|c a IH]; intros m b; cbn; [reflexivity | apply IH]. Qed.

Lemma substring_full b : substring 0 (String.length b) b = b.
Proof. induction b as [|c b IH]; cbn; [reflexivity | now rewrite IH]. Qed.

Lemma substring_take a b : substring 0 (String.length a) (a ++ b)%string = a.
Proof.
  induction a as [|c a IH]; cbn; [now destruct b | now rewrite IH].
Qed.

Lemma substring_split s : forall i,
  i <= String.length s ->
  s = (substring 0 i s ++ substring i (String.length s - i) s)%string.
Proof.
  induction s as [|c s IH]; intros i Hi; cbn in Hi.
  - assert (i = 0) by lia. subst. reflexivity.
  - destruct i as [|i]; cbn.
    + now rewrite substring_full.
    + f_equal. apply IH. lia.
Qed.

Lemma TrimSuffix_append s suffix : strings.TrimSuffix (s ++ suffix) suffix = s.
Proof.
  unfold strings.TrimSuffix. rewrite length_append.
  replace (String.length s + String.length suffix - String.length suffix)
    with (String.length s) by lia.
  rewrite substring_skip, substring_full, String.eqb_refl, substring_take.
  assert (E : (String.length suffix <=? String.length s + String.length suffix)%nat = true)
    by (apply Nat.leb_le; lia).
  now rewrite E.
Qed.

Lemma TrimSuffix_inv text suffix a :
  strings.TrimSuffix text suffix = a -> text = a \/ text = (a ++ suffix)%string.
Proof.
  unfold strings.TrimSuffix.
  destruct (Nat.leb _ _) eqn:E1; cbn [andb]; [|auto].
  destruct (String.eqb _ _) eqn:E2; [|auto].
  apply Nat.leb_le in E1. apply String.eqb_eq in E2. intros <-. right.
  remember (String.length text - String.length suffix) as i eqn:Hi.
  etransitivity; [apply (substring_split text i); lia|].
  f_equal. rewrite <- E2. f_equal. lia.
Qed.

(** Property X9.  [readInput] prints the prompt, then reads.  When reading
    fails it prints the error and returns the empty string, whatever was
    read; otherwise it returns the line without its final line feed.  So it
    returns "y" (or "yes") exactly when reading succeeded and the text read
    is "y" or "y" followed by one line feed. *)
Theorem readInput_returns_the_line env prompt args h text err :
  ReadString env (h ++ [prompt_event prompt args]) = (text, err) ->
  snd (run (readInput env prompt args) h)
  = prompt_event prompt args :: EvReadString text err
    :: match err with
       | Some e => [EvPrintln [Str "An error occurred:"; Str e]]
       | None => []
       end
  /\ (err <> None -> fst (run (readInput env prompt args) h) = "")
  /\ (forall line,
         err = None -> text = (line ++ strings.nl)%string ->
         fst (run (readInput env prompt args) h) = line)
  /\ (forall a,
         a = "y" \/ a = "yes" ->
         (fst (run (readInput env prompt args) h) = a
          <-> err = None /\ (text = a \/ text = (a ++ strings.nl)%string))).
Proof.
  intros Hr.
  assert (E : run (readInput env prompt args) h
              = (answer_of text err,
                 prompt_event prompt args :: EvReadString text err
                 :: match err with
                    | Some e => [EvPrintln [Str "An error occurred:"; Str e]]
                    | None => []
                    end)).
  { unfold run, readInput, bind, fmt_Println, emit, reader_ReadString.
    fold (prompt_event prompt args). rewrite Hr. destruct err; reflexivity. }
  rewrite E. cbn [fst snd]. split; [reflexivity|]. split; [|split].
  - destruct err; [reflexivity | congruence].
  - intros line -> ->. apply TrimSuffix_append.
  - intros a Ha. split.
    + destruct err as [e|]; cbn [answer_of].
      * destruct Ha as [-> | ->]; discriminate.
      * intros H. split; [reflexivity|]. now apply TrimSuffix_inv.
    + intros [-> [-> | ->]]; cbn [answer_of].
      * destruct Ha as [-> | ->]; reflexivity.
      * apply TrimSuffix_append.
Qed.

Lemma append_assoc a b c : ((a ++ b) ++ c)%string = (a ++ (b ++ c))%string.
Proof. induction a as [|x a IH]; cbn; [reflexivity | now rewrite IH]. Qed.

Lemma append_nil_r a : (a ++ "")%string = a.
Proof. induction a as [|x a IH]; cbn; [reflexivity | now rewrite IH]. Qed.



















Lemma prefix_append_r s : forall sub x,
  prefix sub s = true -> prefix sub (s ++ x) = true.
Proof.
  induction s as [|c s IH]; intros [|d sub] x; cbn; try easy.
  - now destruct x.
  - destruct (ascii_dec d c); [apply IH | easy].
Qed.

Lemma Contains_append_r s x sub :
  strings.Contains s sub = true -> strings.Contains (s ++ x) sub = true.
Proof.
  induction s as [|c s IH]; cbn [strings.Contains String.append].
  - destruct sub; [|discriminate]. intros _. apply Contains_prefix. now destruct x.
  - destruct (prefix sub (String c s)) eqn:E.
    + intros _. apply (prefix_append_r _ _ x) in E. cbn [String.append] in E.
      now rewrite E.
    + intros H. rewrite (IH H). now destruct (prefix sub (String c (s ++ x))).
Qed.


Lemma Split_from_first s : forall cur sep,
  exists l rest, strings.Split_from cur s sep = l :: rest.
Proof.
  induction s as [|c s IH]; intros cur sep; cbn; [eauto|].
  destruct (Ascii.eqb c sep); [eauto | apply IH].
Qed.

Lemma Contains_nil s : strings.Contains s "" = true.
Proof. now destruct s. Qed.

(** Property X15.  An empty dependency name occurs in every line, so the
    version inspector answers with the second field of the first line of
    the manifest (for a manifest that begins with its [module] line, the
    path of the module itself). *)
Theorem empty_dependency_matches_first_line env path h data :
  ReadFile env h path = Some data ->
  fst (run (getDependencyVersion env path "") h)
  = second_field (hd "" (strings.Split data "010"%char)).
Proof.
  intros Hr. rewrite getDependencyVersion_run, Hr. cbn [fst versionOf].
  destruct (Split_from_first data "" "010"%char) as (l & rest & E).
  unfold strings.Split. rewrite E. cbn [hd].
  apply (scanLines_first [] l rest ""); [intros ? [] | apply Contains_nil].
Qed.

Lemma takeline_first s : forall cur,
  exists rest,
    strings.Split_from cur s "010"%char = (cur ++ takeline s)%string :: rest.
Proof.
  induction s as [|c s IH]; intros cur; cbn.
  - rewrite append_nil_r. eauto.
  - destruct (Ascii.eqb c "010"%char).
    + rewrite append_nil_r. eauto.
    + destruct (IH (strings.snoc cur c)) as (rest & ->). exists rest.
      unfold strings.snoc. now rewrite append_assoc.
Qed.

Lemma prefix_takeline s : forall sub,
  prefix sub s = true -> one_line sub = true -> prefix sub (takeline s) = true.
Proof.
  induction s as [|c s IH]; intros [|d sub]; cbn; try easy.
  - intros _ _. now destruct (Ascii.eqb c "010"%char).
  - destruct (ascii_dec d c) as [->|]; [|easy].
    intros Hp Ho. apply andb_true_iff in Ho as [Hc Ho].
    apply negb_true_iff in Hc. rewrite Hc. cbn.
    destruct (ascii_dec c c); [auto | congruence].
Qed.

Lemma prefix_one_line s : forall sub,
  prefix sub s = true -> one_line s = true -> one_line sub = true.
Proof.
  induction s as [|c s IH]; intros [|d sub]; cbn; try easy.
  destruct (ascii_dec d c) as [->|]; [|easy].
  intros Hp Ho. apply andb_true_iff in Ho as [Hc Ho]. rewrite Hc. cbn. auto.
Qed.

Lemma Contains_one_line s sub :
  strings.Contains s sub = true -> one_line s = true -> one_line sub = true.
Proof.
  induction s as [|c s IH]; cbn [strings.Contains].
  - destruct (prefix sub "") eqn:E; [|discriminate].
    intros _ H. exact (prefix_one_line _ _ E H).
  - destruct (prefix sub (String c s)) eqn:E.
    + intros _ H. exact (prefix_one_line _ _ E H).
    + intros H Ho. cbn in Ho. apply andb_true_iff in Ho as [_ Ho]. auto.
Qed.

Lemma one_line_append a b : one_line (a ++ b) = one_line a && one_line b.
Proof.
  induction a as [|x a IH]; cbn; [reflexivity|]. now rewrite IH, andb_assoc.
Qed.

(** The pieces of [strings.Split] at the line feed have no line feed. *)
Lemma Split_from_one_line s : forall cur l,
  one_line cur = true -> In l (strings.Split_from cur s "010"%char) ->
  one_line l = true.
Proof.
  induction s as [|c s IH]; intros cur l Hc; cbn.
  - intros [<-|[]]. exact Hc.
  - destruct (Ascii.eqb c "010"%char) eqn:E.
    + intros [<-|H]; [exact Hc | now apply (IH "")].
    + apply IH. unfold strings.snoc. rewrite one_line_append, Hc. cbn. now rewrite E.
Qed.

(** Every piece is a part of the string that was split. *)
Lemma Split_from_part s : forall cur l,
  In l (strings.Split_from cur s "010"%char) ->
  exists pre post, (cur ++ s)%string = (pre ++ l ++ post)%string.
Proof.
  induction s as [|c s IH]; intros cur l; cbn.
  - intros [<-|[]]. exists "", "". now rewrite append_nil_r.
  - destruct (Ascii.eqb c "010"%char).
    + intros [<-|H].
      * exists "", (String c s). reflexivity.
      * destruct (IH "" l H) as (pre & post & E). cbn in E.
        exists (cur ++ String c pre)%string, post.
        rewrite append_assoc. cbn. now rewrite E.
    + intros H. destruct (IH _ l H) as (pre & post & E).
      exists pre, post. rewrite <- E. unfold strings.snoc. now rewrite append_assoc.
Qed.

Lemma Split_from_finds s dep : forall cur,
  one_line dep = true -> strings.Contains s dep = true ->
  exists l, In l (strings.Split_from cur s "010"%char) /\ strings.Contains l dep = true.
Proof.
  intros cur Ho. revert cur.
  assert (P : forall s cur, prefix dep s = true ->
            exists l, In l (strings.Split_from cur s "010"%char)
                      /\ strings.Contains l dep = true).
  { intros u cur Hp. destruct (takeline_first u cur) as (rest & ->).
    exists (cur ++ takeline u)%string. split; [now left|].
    apply Contains_append_l, Contains_prefix, prefix_takeline; assumption. }
  induction s as [|c s IH]; intros cur; cbn [strings.Contains].
  - destruct (prefix dep "") eqn:E; [|discriminate]. intros _. now apply P.
  - destruct (prefix dep (String c s)) eqn:E; [intros _; now apply P|].
    intros H. cbn [strings.Split_from]. destruct (Ascii.eqb c "010"%char).
    + destruct (IH "" H) as (l & Hin & Hl). exists l. split; [now right | exact Hl].
    + apply IH, H.
Qed.

Lemma first_match (P : string -> bool) lines :
  (exists l, In l lines /\ P l = true) ->
  exists before line rest,
    lines = before ++ line :: rest
    /\ (forall l, In l before -> P l = false)
    /\ P line = true.
Proof.
  induction lines as [|x lines IH]; intros (l & Hin & Hl); [destruct Hin|].
  destruct (P x) eqn:E.
  - exists [], x, lines. repeat split; [intros ? [] | exact E].
  - destruct Hin as [->|Hin]; [congruence|].
    destruct (IH (ex_intro _ l (conj Hin Hl))) as (b & ln & r & -> & Hb & Hp).
    exists (x :: b), ln, r. repeat split; [|exact Hp].
    intros y [<-|Hy]; auto.
Qed.

(** Property X14.  The scan of the version inspector misses no line: when
    the dependency name (with no line feed in it) occurs anywhere in a
    readable manifest, there is a first line in which it occurs and the
    answer is the second field of that line (or "NotFound"); when it occurs
    nowhere, or has a line feed in it, the answer is "Unknown". *)
Theorem version_of_a_name_in_the_file env path dep h data :
  ReadFile env h path = Some data ->
  (strings.Contains data dep = false \/ one_line dep = false ->
   fst (run (getDependencyVersion env path dep) h) = VersionUnknown)
  /\ (strings.Contains data dep = true -> one_line dep = true ->
      exists before line rest,
        strings.Split data "010"%char = before ++ line :: rest
        /\ (forall l, In l before -> strings.Contains l dep = false)
        /\ strings.Contains line dep = true
        /\ fst (run (getDependencyVersion env path dep) h) = second_field line).
Proof.
  intros Hr. rewrite getDependencyVersion_run, Hr. cbn [fst versionOf]. split.
  - intros H. apply scanLines_absent. intros line Hin.
    destruct (strings.Contains line dep) eqn:E; [|reflexivity]. exfalso.
    destruct H as [H|H].
    + destruct (Split_from_part data "" line Hin) as (pre & post & Ed).
      cbn in Ed. rewrite Ed in H.
      rewrite (Contains_append_l pre _ dep (Contains_append_r line post dep E)) in H.
      discriminate.
    + pose proof (Split_from_one_line data "" line eq_refl Hin) as Hl.
      rewrite (Contains_one_line line dep E Hl) in H. discriminate.
  - intros Hc Ho.
    destruct (first_match (fun l => strings.Contains l dep) (strings.Split data "010"%char)
                (Split_from_finds data dep "" Ho Hc)) as (b & ln & r & E & Hb & Hl).
    exists b, ln, r. repeat split; auto.
    rewrite E. now apply scanLines_first.
Qed.


Lemma reported_app cmd name t1 t2 :
  quiet cmd t1 -> reported cmd name t2 -> reported cmd name (t1 ++ t2).
Proof.
  induction t1 as [|e t1 IH]; intros H1 H2; [exact H2|].
  destruct e as [| |c out [x|]| | |]; cbn in H1 |- *; auto.
  destruct H1 as [-> H1]. auto.
Qed.

Lemma quiet_app cmd t1 t2 : quiet cmd t1 -> quiet cmd t2 -> quiet cmd (t1 ++ t2).
Proof.
  induction t1 as [|e t1 IH]; intros H1 H2; [exact H2|].
  destruct e as [| |c out [x|]| | |]; cbn in H1 |- *; auto.
  destruct H1 as [-> H1]. auto.
Qed.

Lemma quiet_reported cmd name t : quiet cmd t -> reported cmd name t.
Proof.
  intros H. rewrite <- (app_nil_r t). apply reported_app; [exact H | exact I].
Qed.

Lemma Good_app cmd name {R A} (fl : Flow R A) l t :
  quiet cmd l -> Good cmd name fl t -> Good cmd name fl (l ++ t).
Proof.
  destruct fl; cbn; intros; [now apply quiet_app | now apply reported_app].
Qed.

(** A statement that goes on only after a quiet trace can be cut from what
    follows it. *)
Lemma Run_cut {R A B} cmd name (m : M R A) (f : A -> M R B) h :
  Run m h (Good cmd name) ->
  (forall a h', Run (f a) h' (Good cmd name)) ->
  Run (bind m f) h (Good cmd name).
Proof.
  intros H1 H2. apply Run_bind. unfold Run in *.
  destruct (m h) as [[a|r] t1]; cbn [fst snd] in *; [|exact H1].
  apply Good_app; [exact H1 | apply H2].
Qed.

Lemma Run_skip {R A} cmd name (m : M R A) h l :
  quiet cmd l ->
  Run m h (Good cmd name) ->
  Run m h (fun x t => Good cmd name x (l ++ t)).
Proof. intros H1 H2. unfold Run in *. now apply Good_app. Qed.

Lemma Run_func_reported {A} cmd name (body : M A A) h :
  Run body h (Good cmd name) -> reported cmd name (snd (run (func body) h)).
Proof.
  unfold Run, run, func. destruct (body h) as [[a|a] t]; cbn; [|auto].
  apply quiet_reported.
Qed.

Ltac all_step :=
  lazymatch goal with
  | |- Run (executeCommand _ _) _ _ => apply Run_exec; intros ?out [?x|] _
  | |- Run (os_Stat _ _) _ _ => apply Run_Stat; intros [| |]
  | |- Run (reader_ReadString _) _ _ => apply Run_ReadString; intros ?text [?x|] _
  | |- Run (shouldUpgrade _ _ _ _) _ _ =>
      apply Run_shouldUpgrade;
      match goal with
      | |- context [decision ?v ?t] => generalize (decision v t); intros [|]
      end
  | |- Run (when ?c _) _ _ =>
      let c' := eval cbv beta iota delta [isSome wrapped negb andb fst snd] in c in
      change c with c';
      lazymatch c' with
      | true => unfold when at 1
      | false => unfold when at 1
      | _ => destruct_cond c'
      end
  | |- Run (match ?x with _ => _ end) _ _ => destruct_cond x
  | |- _ => run_step
  end.

(* The statements after which the walk function tests an error. *)
Ltac may_fail m :=
  lazymatch m with
  | currentGitBranch _ _ => idtac
  | gitCheckoutMaster _ _ => idtac
  | gitPull _ _ => idtac
  | goGetUpdate _ _ _ _ => idtac
  | goVet _ _ => idtac
  | goTest _ _ => idtac
  | goBuild _ _ => idtac
  | gitCommit _ _ _ _ => idtac
  | gitPush _ _ => idtac
  | executeCommand _ _ => idtac
  end.

Ltac rep_step :=
  lazymatch goal with
  | |- Run (bind ?m _) _ (Good ?cmd ?name) =>
      tryif may_fail m then apply Run_bind
      else (apply (Run_cut cmd name); [|intros ? ?])
  | |- Run _ _ (Good _ _) => all_step
  | |- Run _ _ ?Q =>
      first [ apply Run_skip; [solve [cbn; tauto]|] | all_step ]
  | |- forall _, _ => intro
  | |- Good _ _ _ _ => fail
  | |- _ => progress (cbv beta iota)
  end.

Ltac kind_of_failure :=
  first [ left; reflexivity
        | right;
          first [ exists GitRevParse; split; reflexivity
                | exists GitCheckout; split; reflexivity
                | exists GitPull; split; reflexivity
                | exists GoGet; split; reflexivity
                | exists GoModTidy; split; reflexivity
                | exists GoVet; split; reflexivity
                | exists GoTest; split; reflexivity
                | exists GoBuild; split; reflexivity
                | exists RmTmpApp; split; reflexivity
                | exists GitAdd; split; reflexivity
                | exists GitCommit; split; reflexivity
                | exists GitPush; split; reflexivity ] ].

Lemma walkFn_reports env dep tgt c path isdir name err h :
  reported (pipeline_cmd (filepath_Dir env path) dep tgt)
           (filepath_Base env (filepath_Dir env path))
           (snd (run (walkFn env dep tgt c path isdir name err) h)).
Proof.
  unfold walkFn. apply Run_func_reported.
  repeat rep_step.
  all: cbn [Good fst snd app reported quiet].
  all: repeat split; try exact I; try reflexivity; kind_of_failure.
Qed.

Lemma reported_at cmd name t1 : forall c out x t2,
  reported cmd name (t1 ++ EvExec c out (Some x) :: t2) ->
  c = cmd GitStatus \/ exists k, c = cmd k /\ t2 = [error_log name k x out].
Proof.
  induction t1 as [|e t1 IH]; intros c out x t2 H.
  - cbn in H. tauto.
  - destruct e as [| |c0 o0 [x0|]| | |]; cbn in H; try (now apply IH).
Qed.

Lemma pipeline_cmd_inj dir dep tgt j k :
  pipeline_cmd dir dep tgt j = pipeline_cmd dir dep tgt k -> j = k.
Proof. destruct j, k; cbn; intros H; try reflexivity; discriminate H. Qed.

(** Property X3.  When a command other than [git status] fails, exactly
    one event follows: the error that [printIndentedError] logs, with the
    message of the step, the name of the project and the text
    "<error>: <output>" of the failed command.  The visit then returns the
    abort error for [go vet], [go test], [go build] and [rm ./tmp-app], and
    [nil] for every other command. *)
Theorem failed_command_is_reported env dep tgt c path isdir name err h t1 k out x t2 :
  snd (run (walkFn env dep tgt c path isdir name err) h)
  = t1 ++ EvExec (pipeline_cmd (filepath_Dir env path) dep tgt k) out (Some x) :: t2 ->
  k <> GitStatus ->
  t2 = [error_log (filepath_Base env (filepath_Dir env path)) k x out]
  /\ fst (run (walkFn env dep tgt c path isdir name err) h) = abort_message k.
Proof.
  intros Ht Hk. split.
  - pose proof (walkFn_reports env dep tgt c path isdir name err h) as H.
    rewrite Ht in H. apply reported_at in H as [H|(j & H & ->)];
      apply pipeline_cmd_inj in H; congruence.
  - exact (failed_command_result env dep tgt c path isdir name err h t1 k out x t2 Ht Hk).
Qed.


(** Property X16.  [main] looks at [os.Args[1]] to [os.Args[4]] only: the
    arguments after the fourth change nothing (a "confirm-each" there
    included), and neither does the name of the program. *)
Theorem extra_arguments_are_ignored env a0 a1 a2 a3 a4 more h :
  run (main env (a0 :: a1 :: a2 :: a3 :: a4 :: more)) h
  = run (main env [a0; a1; a2; a3; a4]) h
  /\ run (main env [a0; a1; a2; a3; a4]) h = run (main env [""; a1; a2; a3; a4]) h.
Proof.
  rewrite !main_runs_walk by (cbn; lia). split; reflexivity.
Qed.

(** Property X2 on the sample: [go mod tidy] comes after [go get]. *)
Lemma pipeline_goes_on_witness :
  let t := snd (Sample.visit_a Sample.all_well false) in
  exists logs out' e' rest,
    skipn 10 t
    = logs ++ EvExec (pipeline_cmd "r/a" Sample.dep Sample.target GoModTidy) out' e' :: rest
    /\ forall x, In x logs -> exists lvl msg, x = EvLog lvl msg.
Proof.
  cbv zeta.
  assert (H1 : snd (Sample.visit_a Sample.all_well false)
               = firstn 9 (snd (Sample.visit_a Sample.all_well false))
                 ++ EvExec (pipeline_cmd "r/a" Sample.dep Sample.target GoGet) "" None
                 :: skipn 10 (snd (Sample.visit_a Sample.all_well false)))
    by (vm_compute; reflexivity).
  exact (proj1 (pipeline_goes_on Sample.all_well Sample.dep Sample.target false
                  "r/a/go.mod" false "go.mod" None [])
           _ GoGet "" None _ GoModTidy H1 eq_refl eq_refl).
Defined.

(** Property X3 on the sample: the failure of [go vet]. *)
Lemma failed_command_is_reported_witness :
  let t := snd (Sample.visit_a Sample.vet_fails false) in
  skipn 14 t = [error_log "a" GoVet "exit status 1" "failed"]
  /\ fst (Sample.visit_a Sample.vet_fails false) = Some aborted_see_above.
Proof.
  cbv zeta.
  assert (H1 : snd (Sample.visit_a Sample.vet_fails false)
               = firstn 13 (snd (Sample.visit_a Sample.vet_fails false))
                 ++ EvExec (pipeline_cmd "r/a" Sample.dep Sample.target GoVet)
                           "failed" (Some "exit status 1")
                 :: skipn 14 (snd (Sample.visit_a Sample.vet_fails false)))
    by (vm_compute; reflexivity).
  assert (H2 : GoVet <> GitStatus) by discriminate.
  exact (failed_command_is_reported Sample.vet_fails Sample.dep Sample.target false
           "r/a/go.mod" false "go.mod" None [] _ GoVet _ _ _ H1 H2).
Defined.

(** Property X5 on the sample: the error comes from [go vet]. *)
Lemma walk_function_error_cases_witness :
  None = Some aborted_see_above
  \/ exists k out x,
       In (EvExec (pipeline_cmd "r/a" Sample.dep Sample.target k) out (Some x))
          (snd (Sample.visit_a Sample.vet_fails false))
       /\ abort_message k = Some aborted_see_above.
Proof.
  assert (H1 : fst (Sample.visit_a Sample.vet_fails false) = Some aborted_see_above)
    by (vm_compute; reflexivity).
  exact (walk_function_error_cases Sample.vet_fails Sample.dep Sample.target false
           "r/a/go.mod" false "go.mod" None [] aborted_see_above H1).
Defined.

(** Property X4 on the sample: [go test] succeeded before [git push]. *)
Lemma commands_need_their_predecessors_witness :
  let t := snd (Sample.visit_a Sample.all_well false) in
  exists out0 e0,
    In (EvExec (pipeline_cmd "r/a" Sample.dep Sample.target GoTest) out0 e0) (firstn 24 t)
    /\ succeeded GoTest out0 e0 = true.
Proof.
  cbv zeta.
  assert (H1 : snd (Sample.visit_a Sample.all_well false)
               = firstn 24 (snd (Sample.visit_a Sample.all_well false))
                 ++ EvExec (pipeline_cmd "r/a" Sample.dep Sample.target GitPush) "" None
                 :: skipn 25 (snd (Sample.visit_a Sample.all_well false)))
    by (vm_compute; reflexivity).
  assert (H2 : In GoTest (requires GitPush)) by (vm_compute; tauto).
  exact (commands_need_their_predecessors Sample.all_well Sample.dep Sample.target false
           "r/a/go.mod" false "go.mod" None [] _ GitPush _ _ _ GoTest H1 H2).
Defined.

(** Property X6 on the sample: [go get] is run in [r/a]. *)
Lemma only_known_events_witness :
  Dir (pipeline_cmd "r/a" Sample.dep Sample.target GoGet) = "r/a"
  /\ exists k,
       pipeline_cmd "r/a" Sample.dep Sample.target GoGet
       = pipeline_cmd "r/a" Sample.dep Sample.target k.
Proof.
  assert (H1 : In (EvExec (pipeline_cmd "r/a" Sample.dep Sample.target GoGet) "" None)
                  (snd (Sample.visit_a Sample.all_well false)))
    by (vm_compute; tauto).
  exact (only_known_events Sample.all_well Sample.dep Sample.target false
           "r/a/go.mod" false "go.mod" None [] _ H1).
Defined.

(** Property X10 on a tree with a [main.go] and no manifest. *)
Lemma tree_without_manifest_witness :
  run (main Cases.no_manifest Sample.args) [] = (tt, []).
Proof.
  apply tree_without_manifest.
  - vm_compute. lia.
  - intros v [<-|[<-|[<-|[]]]]; cbn; split; try reflexivity;
      first [ left; reflexivity | right; discriminate ].
Defined.

(** Property X11 on a tree with a directory that cannot be read: project
    [r/b] is not visited. *)
Lemma walk_error_stops_main_witness :
  run (walkFunc Cases.locked Sample.dep Sample.target false
         (mkVisit "r/a" true "a" (Some Cases.denied))) ([] ++ [])
  = (Some Cases.denied, [])
  /\ run (main Cases.locked Sample.args) [] = (tt, [] ++ [walk_error_log Cases.denied]).
Proof.
  apply (walk_error_stops_main Cases.locked Sample.args []
           [mkVisit "r" true "r" None; mkVisit "r/a" true "a" None]
           (mkVisit "r/a" true "a" (Some Cases.denied))
           [mkVisit "r/b" true "b" None; mkVisit "r/b/go.mod" false "go.mod" None]).
  - vm_compute. lia.
  - reflexivity.
  - reflexivity.
  - reflexivity.
Defined.

(** Property X7 on the sample, with the version of the manifest as the
    target. *)
Lemma up_to_date_project_is_left_alone_witness :
  run (walkFn Sample.all_well Sample.dep "v1.2.0" false "r/a/go.mod" false "go.mod" None) []
  = (None,
     [EvReadFile "r/a/go.mod" (Some Sample.manifest);
      EvLog Debug (Sprintf ("Upgrade not needed for %s" ++ strings.nl)%string [Str "r/a"])]).
Proof.
  apply (up_to_date_project_is_left_alone Sample.all_well Sample.dep "v1.2.0" false
           "r/a/go.mod" []).
  vm_compute. reflexivity.
Defined.

(** Property X8 on the sample: the answer is "n". *)
Lemma declined_project_is_left_alone_witness :
  run (walkFn Cases.refused Sample.dep Sample.target true "r/a/go.mod" false "go.mod" None) []
  = (None,
     [EvReadFile "r/a/go.mod" (Some Sample.manifest);
      EvPrintln [Yellow (Cat (Str ">>> ") (Sprintf "Continue with %s?" [Str "r/a"]))];
      EvReadString ("n" ++ strings.nl)%string None]
     ++ []
     ++ [EvLog Debug (Sprintf ("Skipping %s" ++ strings.nl)%string [Str "r/a"])]).
Proof.
  apply (declined_project_is_left_alone Cases.refused Sample.dep Sample.target
           "r/a/go.mod" [] ("n" ++ strings.nl)%string None).
  - vm_compute. reflexivity.
  - reflexivity.
  - intros _. split; vm_compute; discriminate.
Defined.

(** Property X9 on the sample: the answer is "yes" and a line feed. *)
Lemma readInput_returns_the_line_witness :
  fst (run (readInput Sample.asked "Continue with %s?" [Str "r/a"]) []) = "yes".
Proof.
  destruct (readInput_returns_the_line Sample.asked "Continue with %s?" [Str "r/a"] []
              ("yes" ++ strings.nl)%string None eq_refl) as (_ & _ & H & _).
  exact (H "yes" eq_refl eq_refl).
Defined.

(** Property X1 on the sample. *)
Lemma successful_update_runs_the_full_pipeline_witness :
  exists checkout build,
    fst (Sample.visit_a Sample.all_well false) = None
    /\ commands (snd (Sample.visit_a Sample.all_well false))
       = map (pipeline_cmd "r/a" Sample.dep Sample.target) (full_pipeline checkout build)
    /\ last (snd (Sample.visit_a Sample.all_well false)) (EvPrintln [])
       = EvLog Info (Sprintf "%s: %s" [Str "Done updating %s"; Sprintf "a" []]).
Proof.
  apply (successful_update_runs_the_full_pipeline Sample.all_well Sample.dep Sample.target
           "r/a/go.mod").
  - intros h c. cbn.
    destruct (Sample.invokes "git" "status" c); [reflexivity|].
    destruct (Sample.invokes "git" "rev-parse" c); reflexivity.
  - intros h. reflexivity.
  - vm_compute. reflexivity.
Defined.



(** Property X14 on the sample: a name that is not in the manifest, and
    the name that is. *)
Lemma version_of_a_name_in_the_file_witness :
  fst (run (getDependencyVersion Sample.all_well "r/a/go.mod" "github.com/baz/qux") [])
  = VersionUnknown
  /\ exists before line rest,
       strings.Split Sample.manifest "010"%char = before ++ line :: rest
       /\ (forall l, In l before -> strings.Contains l Sample.dep = false)
       /\ strings.Contains line Sample.dep = true
       /\ fst (run (getDependencyVersion Sample.all_well "r/a/go.mod" Sample.dep) [])
          = second_field line.
Proof.
  split.
  - apply (proj1 (version_of_a_name_in_the_file Sample.all_well "r/a/go.mod"
                    "github.com/baz/qux" [] Sample.manifest eq_refl)).
    left. vm_compute. reflexivity.
  - apply (proj2 (version_of_a_name_in_the_file Sample.all_well "r/a/go.mod"
                    Sample.dep [] Sample.manifest eq_refl)).
    + vm_compute. reflexivity.
    + vm_compute. reflexivity.
Defined.

(** Property X15 on the sample: the answer is the path of the module. *)
Lemma empty_dependency_matches_first_line_witness :
  fst (run (getDependencyVersion Sample.all_well "r/a/go.mod" "") []) = "example.com/a".
Proof.
  exact (eq_trans (empty_dependency_matches_first_line Sample.all_well "r/a/go.mod" []
                     Sample.manifest eq_refl) eq_refl).
Defined.

(** Property X17 on the sample: [main.go] is modified. *)
Lemma dirty_project_is_left_alone_witness :
  run (walkFn Sample.dirty Sample.dep Sample.target false "r/a/go.mod" false "go.mod" None) []
  = (None,
     [EvReadFile "r/a/go.mod" (Some Sample.manifest);
      EvLog Info (Sprintf "Updating Project: %s from version %s to %s"
                          [Str "a"; Str "v1.2.0"; Str Sample.target]);
      EvLog Info (Sprintf "%s: %s" [Str "a"; Sprintf "Checking for uncommitted changes..." []])]
     ++ [EvExec (Command "git" ["status"; "--porcelain"] "r/a") " M main.go" None;
         EvLog Warn
           (Sprintf "%s: %s"
              [Str "a";
               Sprintf "Warning: Project %s has uncommitted changes. Skipping update."
                       [Str "a"]])]).
Proof.
  apply (dirty_project_is_left_alone Sample.dirty Sample.dep Sample.target "r/a/go.mod" []
           " M main.go" None).
  - vm_compute. reflexivity.
  - reflexivity.
  - discriminate.
Defined.

